(** * PTS: tiled OCR aggregation and job lifecycle

    A shallow embedding of the parts of the repository that carry
    invariants:

    - [services/processing_service.py]: [crop_tiles],
      [project_tile_df_to_global], [box_iou], [deduplicate_ocr], [tile_ocr]
      and [ProcessingService.process_pdf];
    - [services/job_queue.py]: [InMemoryJobQueue];
    - [api/processing.py]: [cancel_job].

    Conventions of the embedding.

    - Python [int] is [Z].  Python [float] (pandas float64 columns, the
      progress fractions) is the exact rational type [Q]: rounding, infinities
      and NaN are outside the model.  Every statement about such values is a
      statement about the exact arithmetic the code writes down.
    - A raster is represented by its shape [(h, w)]; a tile's sub-raster by
      the shape of the slice that produced it.  Pixel contents never
      influence the functions modelled here; they only reach the external
      detector, which is an input of the model.
    - Code that can raise returns [result]; code that reports progress runs
      in the writer-with-exceptions monad [M], whose log is the sequence of
      values handed to the outermost progress callback.
    - Clocks ([datetime.now]) are explicit inputs. *)

From Stdlib Require Import ZArith QArith Qround Qminmax Lqa List Ascii String Lia.
From Stdlib Require Import Sorted Permutation DecimalString.
From stdpp Require Import gmap strings list.
Import ListNotations.

Set Default Proof Using "Type".

(** ** Python runtime: exceptions, [range], slices, [int()] *)

Module Py.

Inductive exn : Type :=
| ValueError (msg : string)
| IndexError (msg : string)
| ExternalError (msg : string).

(** [str(e)] *)
Definition str (e : exn) : string :=
  match e with
  | ValueError m | IndexError m | ExternalError m => m
  end.

Inductive result (A : Type) : Type :=
| Ok (a : A)
| Raise (e : exn).
Arguments Ok {A} a.
Arguments Raise {A} e.

#[global] Instance result_ret : MRet result := @Ok.
#[global] Instance result_bind : MBind result := fun A B k r =>
  match r with
  | Ok a => k a
  | Raise e => Raise e
  end.

(** Number of elements of [range(start, stop, step)] for [step <> 0]. *)
Definition range_len (start stop step : Z) : Z :=
  if (0 <? step)%Z then
    if (start <? stop)%Z then ((stop - start - 1) / step + 1)%Z else 0%Z
  else
    if (stop <? start)%Z then ((start - stop - 1) / (- step) + 1)%Z else 0%Z.

(** [list(range(start, stop, step))]; a zero step raises [ValueError]. *)
Definition range (start stop step : Z) : result (list Z) :=
  if (step =? 0)%Z then Raise (ValueError "range() arg 3 must not be zero")
  else Ok (map (fun k : nat => (start + Z.of_nat k * step)%Z)
               (seq 0 (Z.to_nat (range_len start stop step)))).

(** One bound of a slice [a[start:stop]] over an axis of length [len]:
    a negative index counts from the end, and everything is clipped to
    [0, len]. *)
Definition slice_index (i len : Z) : Z :=
  if (i <? 0)%Z then Z.max (i + len) 0 else Z.min i len.

(** Length of [a[start:stop]] along an axis of length [len]. *)
Definition slice_len (start stop len : Z) : Z :=
  Z.max 0 (slice_index stop len - slice_index start len).

(** [int(x)] for a float [x]: truncation towards zero. *)
Definition int (q : Q) : Z := Z.quot (Qnum q) (Zpos (Qden q)).

(** [len(l)] *)
Definition len {A} (l : list A) : Z := Z.of_nat (length l).

(** [str(n)] for an int *)
Definition str_int (n : Z) : string := NilZero.string_of_int (Z.to_int n).

(** A [for] loop whose body can raise, over any monad. *)
Fixpoint for_each `{MBind T, MRet T} {A S : Type}
    (body : S -> A -> T S) (l : list A) (s : S) : T S :=
  match l with
  | [] => mret s
  | a :: l' => s' ← body s a; for_each body l' s'
  end.

(** [enumerate(l)] *)
Definition enumerate {A} (l : list A) : list (Z * A) :=
  imap (fun i a => (Z.of_nat i, a)) l.

(** *** Progress reporting

    A computation that calls the progress callback and may raise: the
    values reported so far, in order, and how the computation ended. *)
Record M (A : Type) : Type := mkM {
  log : list Z;
  outcome : result A
}.
Arguments mkM {A} log outcome.
Arguments log {A} m.
Arguments outcome {A} m.

#[global] Instance M_ret : MRet M := fun A a => mkM [] (Ok a).
#[global] Instance M_bind : MBind M := fun A B k m =>
  match outcome m with
  | Ok a => mkM (log m ++ log (k a)) (outcome (k a))
  | Raise e => mkM (log m) (Raise e)
  end.

(** One call of the outermost callback. *)
Definition report (progress : Z) : M unit := mkM [progress] (Ok tt).

(** A call that reports nothing. *)
Definition lift {A} (r : result A) : M A := mkM [] r.

(** The computation ends in an exception. *)
Definition raises {A} (m : M A) : Prop := exists e, outcome m = Raise e.

(** The reported values never decrease and stay within [lo, hi]. *)
Definition climbs {A} (lo hi : Z) (m : M A) : Prop :=
  StronglySorted Z.le (log m) /\ Forall (fun v => (lo <= v <= hi)%Z) (log m).

(** If the computation returns, the last value it reported is [v]. *)
Definition ends_with {A} (v : Z) (m : M A) : Prop :=
  forall a, outcome m = Ok a -> last (log m) = Some v.

End Py.

Import Py.

(** ** The tiler: [crop_tiles] *)

Module Tiler.

(** One entry of the list [crop_tiles] returns.  [tile_h] and [tile_w]
    are [tile["image"].shape[0]] and [tile["image"].shape[1]]. *)
Record tile : Type := mkTile {
  tile_id : Z;
  x_offset : Z;
  y_offset : Z;
  tile_h : Z;
  tile_w : Z
}.

(** Body of the inner loop, for one [(y, x)].  The state is
    [(tiles, tile_id)].  [tile.size == 0] holds exactly when one of the two
    sliced axes is empty (the colour axis is never sliced). *)
Definition crop_step (h w tile_size y : Z) (st : list tile * Z) (x : Z)
  : list tile * Z :=
  let '(tiles, tid) := st in
  let th := slice_len y (y + tile_size) h in
  let tw := slice_len x (x + tile_size) w in
  if (th * tw =? 0)%Z then st
  else (tiles ++ [mkTile tid x y th tw], (tid + 1)%Z).

(** [crop_tiles(image, tile_size, overlap)] for an image of shape
    [(h, w)].  The inner [range(0, w, stride)] is the same list in every
    outer iteration and can raise only when the outer one already did
    (both depend on [stride] alone), so it is computed once. *)
Definition crop_tiles (h w tile_size overlap : Z) : result (list tile) :=
  let stride := (tile_size - overlap)%Z in
  ys ← Py.range 0 h stride;
  xs ← Py.range 0 w stride;
  Ok (fst (fold_left
             (fun st y => fold_left (crop_step h w tile_size y) xs st)
             ys ([], 0%Z))).

End Tiler.


(** ** Detections and their geometry *)

Module Detection.

(** A row of the table the detector returns for one tile: coordinates
    are normalised to the tile it was given. *)
Record row : Type := mkRow {
  value : string;
  confidence : Q;
  x1 : Q;
  y1 : Q;
  x2 : Q;
  y2 : Q
}.

(** A row after projection: page-normalised box plus provenance. *)
Record detection : Type := mkDetection {
  cells : row;
  tile_id : Z
}.

(** A row of the final per-page table. *)
Record word : Type := mkWord {
  det : detection;
  word_idx : Z
}.

Definition box : Type := Q * Q * Q * Q.

(** [df.loc[i, ["x1", "y1", "x2", "y2"]].values] *)
Definition box_of (d : detection) : box :=
  (x1 (cells d), y1 (cells d), x2 (cells d), y2 (cells d)).

Definition well_formed_row (r : row) : Prop :=
  (x1 r <= x2 r)%Q /\ (y1 r <= y2 r)%Q.

Definition well_formed (b : box) : Prop :=
  let '(bx1, by1, bx2, by2) := b in (bx1 <= bx2)%Q /\ (by1 <= by2)%Q.

Definition well_formed_detection (d : detection) : Prop :=
  well_formed_row (cells d).

(** *** [str.strip] and [str.lower]

    Strings are sequences of 8-bit characters.  Only the ASCII range has
    case and whitespace here; characters from 128 up are left alone. *)

Definition is_space (c : ascii) : bool :=
  let n := nat_of_ascii c in
  ((9 <=? n)%nat && (n <=? 13)%nat) || ((28 <=? n)%nat && (n <=? 32)%nat).

Fixpoint lstrip (s : list ascii) : list ascii :=
  match s with
  | c :: s' => if is_space c then lstrip s' else s
  | [] => []
  end.

Definition strip (s : string) : string :=
  string_of_list_ascii
    (rev (lstrip (rev (lstrip (list_ascii_of_string s))))).

Definition lower_char (c : ascii) : ascii :=
  let n := nat_of_ascii c in
  if ((65 <=? n)%nat && (n <=? 90)%nat) then ascii_of_nat (n + 32) else c.

Definition lower (s : string) : string :=
  string_of_list_ascii (map lower_char (list_ascii_of_string s)).

(** [df.loc[i, "value"].strip().lower()] *)
Definition norm_text (d : detection) : string :=
  lower (strip (value (cells d))).

End Detection.

(** ** Coordinate projection: [project_tile_df_to_global] *)

Module Projector.
Import Detection.

(** The column arithmetic applied to one row.  Integer arguments are
    promoted to floats by the column operations. *)
Definition project_row (x_offset y_offset tile_w tile_h full_w full_h : Z)
    (tid : Z) (r : row) : detection :=
  (* tile -> pixel *)
  let x1_px := (x1 r * inject_Z tile_w + inject_Z x_offset)%Q in
  let y1_px := (y1 r * inject_Z tile_h + inject_Z y_offset)%Q in
  let x2_px := (x2 r * inject_Z tile_w + inject_Z x_offset)%Q in
  let y2_px := (y2 r * inject_Z tile_h + inject_Z y_offset)%Q in
  (* pixel -> global normalized *)
  mkDetection
    (mkRow (value r) (confidence r)
           (x1_px / inject_Z full_w) (y1_px / inject_Z full_h)
           (x2_px / inject_Z full_w) (y2_px / inject_Z full_h))
    tid.

Definition project_tile_df_to_global (df_tile : list row)
    (x_offset y_offset tile_w tile_h full_w full_h : Z) (tid : Z)
  : list detection :=
  map (project_row x_offset y_offset tile_w tile_h full_w full_h tid) df_tile.

End Projector.

(** ** Overlap ratio and deduplication: [box_iou], [deduplicate_ocr] *)

Module Dedup.
Import Detection.

(** [x > 0] on floats *)
Definition Qpositive (x : Q) : bool := negb (Qle_bool x 0).

Definition inter_area (a b : box) : Q :=
  let '(xa1, ya1, xa2, ya2) := a in
  let '(xb1, yb1, xb2, yb2) := b in
  let inter_x1 := Qmax xa1 xb1 in
  let inter_y1 := Qmax ya1 yb1 in
  let inter_x2 := Qmin xa2 xb2 in
  let inter_y2 := Qmin ya2 yb2 in
  let inter_w := Qmax 0 (inter_x2 - inter_x1) in
  let inter_h := Qmax 0 (inter_y2 - inter_y1) in
  inter_w * inter_h.

Definition area (a : box) : Q :=
  let '(xa1, ya1, xa2, ya2) := a in (xa2 - xa1) * (ya2 - ya1).

Definition union_area (a b : box) : Q :=
  area a + area b - inter_area a b.

Definition box_iou (a b : box) : Q :=
  let union := union_area a b in
  if Qpositive union then inter_area a b / union else 0.

(** *** [df.sort_values("confidence", ascending=False)]

    A stable insertion sort.  pandas' default sort leaves the order of
    rows with equal confidence unspecified; the model fixes it to the
    input order. *)
Fixpoint insert_desc (d : detection) (l : list detection) : list detection :=
  match l with
  | [] => [d]
  | e :: l' =>
      if Qle_bool (confidence (cells e)) (confidence (cells d))
      then d :: l
      else e :: insert_desc d l'
  end.

Definition sort_values (df : list detection) : list detection :=
  fold_right insert_desc [] df.

(** [a] may stand before [b] in a table sorted by descending
    confidence. *)
Definition conf_ge (a b : detection) : Prop :=
  (confidence (cells b) <= confidence (cells a))%Q.

(** The test the inner loop applies to a pair of rows. *)
Definition duplicates (iou_thresh : Q) (di dj : detection) : bool :=
  String.eqb (norm_text di) (norm_text dj)
  && Qle_bool iou_thresh (box_iou (box_of di) (box_of dj)).

(** Body of the inner loop [for j in range(i + 1, len(df))]. *)
Definition inner_step (df : list detection) (iou_thresh : Q)
    (di : detection) (suppressed : gset nat) (j : nat) : gset nat :=
  if decide (j ∈ suppressed) then suppressed
  else match df !! j with
       | Some dj =>
           if negb (String.eqb (norm_text di) (norm_text dj)) then suppressed
           else if Qle_bool iou_thresh (box_iou (box_of di) (box_of dj))
                then {[j]} ∪ suppressed
                else suppressed
       | None => suppressed
       end.

(** Body of the outer loop [for i in range(len(df))]; the state is
    [(keep, suppressed)]. *)
Definition outer_step (df : list detection) (iou_thresh : Q)
    (st : list nat * gset nat) (i : nat) : list nat * gset nat :=
  let '(keep, suppressed) := st in
  if decide (i ∈ suppressed) then st
  else match df !! i with
       | Some di =>
           (keep ++ [i],
            fold_left (inner_step df iou_thresh di)
                      (seq (S i) (length df - S i)) suppressed)
       | None => st
       end.

(** The greedy pass over an already sorted table. *)
Definition nms (df : list detection) (iou_thresh : Q) : list nat * gset nat :=
  fold_left (outer_step df iou_thresh) (seq 0 (length df)) ([], ∅).

(** [df.loc[keep].reset_index(drop=True)] *)
Definition loc (df : list detection) (keep : list nat) : list detection :=
  omap (fun i => df !! i) keep.

Definition deduplicate_ocr (df : list detection) (iou_thresh : Q)
  : list detection :=
  let df := sort_values df in
  loc df (fst (nms df iou_thresh)).

End Dedup.

(** ** Configuration constants ([config.py]) *)

Module Config.
Definition TILE_SIZE : Z := 1000.
Definition TILE_OVERLAP : Z := 250.
Definition OCR_BATCH_SIZE : Z := 24.
End Config.

(** ** The batch detection orchestrator: [tile_ocr] *)

Module Orchestrator.
Import Detection Tiler.

(** What the detector hands back for one tile: [None], or a table. *)
Definition tile_result : Type := option (list row).

(** The external detector, [OCR(gpu=gpu).from_image]: one call per
    batch of tile rasters.  It may raise. *)
Definition detector : Type := list tile -> result (list tile_result).

(** What every table the detector returns satisfies. *)
Definition detector_yields (P : tile_result -> Prop) (from_image : detector)
  : Prop :=
  forall batch out, from_image batch = Ok out -> Forall P out.

(** A result [tile_ocr] skips: [None], or an empty table. *)
Definition is_blank (r : tile_result) : Prop := r = None \/ r = Some [].

(** A result whose rows all have well-formed boxes. *)
Definition rows_well_formed (r : tile_result) : Prop :=
  forall rows, r = Some rows -> Forall well_formed_row rows.

Fixpoint batches_of {A} (fuel n : nat) (l : list A) : list (list A) :=
  match fuel with
  | O => []
  | S fuel' =>
      match l with
      | [] => []
      | _ => take n l :: batches_of fuel' n (drop n l)
      end
  end.

(** [list(batched(iterable, n))], as [itertools.batched] defines it: [n]
    below one is a [ValueError]. *)
Definition batched {A} (l : list A) (n : Z) : result (list (list A)) :=
  if (n <? 1)%Z then Raise (ValueError "n must be at least one")
  else Ok (batches_of (length l) (Z.to_nat n) l).

(** [if progress_callback: progress_callback(current, total, ...)] *)
Definition notify (progress_callback : option (Z -> Z -> M unit))
    (current total : Z) : M unit :=
  match progress_callback with
  | Some callback => callback current total
  | None => mret tt
  end.

(** The loop [for batch in batches], with its [break] on an empty batch.
    The state is [(results, batch_num)]. *)
Fixpoint ocr_batches (from_image : detector) (batch_size total_tiles : Z)
    (progress_callback : option (Z -> Z -> M unit))
    (batches : list (list tile)) (results : list tile_result) (batch_num : Z)
  : M (list tile_result) :=
  match batches with
  | [] => mret results
  | batch :: rest =>
      if (len batch =? 0)%Z then mret results
      else
        out ← lift (from_image batch);
        let results := results ++ out in
        let batch_num := (batch_num + 1)%Z in
        let tiles_processed := Z.min (batch_num * batch_size) total_tiles in
        _ ← notify progress_callback tiles_processed total_tiles;
        ocr_batches from_image batch_size total_tiles progress_callback
                    rest results batch_num
  end.

(** Body of the assembling loop [for i in range(len(tiles))]. *)
Definition assemble_step (full_w full_h : Z) (tiles : list tile)
    (results : list tile_result) (all_dfs : list (list detection)) (i : nat)
  : result (list (list detection)) :=
  match results !! i, tiles !! i with
  | Some df_tile, Some t =>
      match df_tile with
      | None | Some [] => Ok all_dfs
      | Some rows =>
          Ok (all_dfs ++
              [Projector.project_tile_df_to_global rows
                 (x_offset t) (y_offset t) (tile_w t) (tile_h t)
                 full_w full_h (Tiler.tile_id t)])
      end
  | _, _ => Raise (IndexError "list index out of range")
  end.

(** [pd.concat(objs, ignore_index=True)] *)
Definition pd_concat {A} (objs : list (list A)) : result (list A) :=
  match objs with
  | [] => Raise (ValueError "No objects to concatenate")
  | _ => Ok (concat objs)
  end.

(** [df["word_idx"] = range(len(df))] *)
Definition with_word_idx (df : list detection) : list word :=
  imap (fun i d => mkWord d (Z.of_nat i)) df.

(** [tile_ocr(drawing, gpu, batch_size, progress_callback)] for a
    drawing of shape [(full_h, full_w)]. *)
Definition tile_ocr (full_h full_w : Z) (from_image : detector)
    (batch_size : Z) (progress_callback : option (Z -> Z -> M unit))
  : M (list word) :=
  tiles ← lift (crop_tiles full_h full_w Config.TILE_SIZE Config.TILE_OVERLAP);
  let total_tiles := len tiles in
  _ ← notify progress_callback 0 total_tiles;
  batches ← lift (batched tiles batch_size);
  results ← ocr_batches from_image batch_size total_tiles progress_callback
                        batches [] 0;
  _ ← notify progress_callback total_tiles total_tiles;
  all_dfs ← lift (for_each (assemble_step full_w full_h tiles results)
                           (seq 0 (length tiles)) []);
  df_final ← lift (pd_concat all_dfs);
  let df_final := Dedup.deduplicate_ocr df_final (6 # 10) in
  mret (with_word_idx df_final).

End Orchestrator.

(** ** The lifecycle controller's page pipeline: [ProcessingService.process_pdf] *)

Module ProcessingService.
Import Detection Orchestrator.

(** A row of the measurement table [extract_tendons] returns, and the
    same row once its ["page"] column is set. *)
Definition measurement : Type := string.
Definition excel_row : Type := measurement * Z.

(** One rasterised page with the external collaborators that depend on
    its pixels: the detector and the measurement extractor. *)
Record page : Type := mkPage {
  shape : Z * Z;
  from_image : detector;
  extract_tendons : list word -> result (list measurement)
}.

(** [self.storage_service] *)
Record storage_service : Type := mkStorage {
  save_result_image : string -> Z -> result string;
  save_excel : string -> list excel_row -> result string
}.

Record page_result : Type := mkPageResult {
  pr_page : Z;
  pr_filename : string;
  pr_image_url : option string;
  pr_measurements : list excel_row
}.

(** The dictionary [process_pdf] returns. *)
Inductive response : Type :=
| Success (total_pages total_tendons : Z) (pages : list page_result)
          (excel_data : list excel_row) (excel_path : option string)
| Failure (error : string).

(** [self.storage_service and job_id], with the job id it yields. *)
Definition storage_for (storage : option storage_service)
    (job_id : option string) : option (storage_service * string) :=
  match storage, job_id with
  | Some s, Some j => if String.eqb j "" then None else Some (s, j)
  | _, _ => None
  end.

(** [if progress_callback: progress_callback(progress, ...)] *)
Definition notify (progress_callback : bool) (progress : Z) : M unit :=
  if progress_callback then report progress else mret tt.

(** The nested callback handed to [tile_ocr]. *)
Definition ocr_progress (progress_callback : bool)
    (page_start_progress page_progress_range : Z) (current total : Z)
  : M unit :=
  if progress_callback && (0 <? total)%Z then
    (* OCR takes 70% of page processing time *)
    let ocr_percent := (inject_Z current / inject_Z total * (7 # 10))%Q in
    let progress :=
      (page_start_progress
       + Py.int (ocr_percent * inject_Z page_progress_range))%Z in
    report progress
  else mret tt.

Definition page_progress (total_pages n : Z) : Z :=
  (5 + Py.int (inject_Z n / inject_Z total_pages * 85))%Z.

(** Body of [for page_num, image in enumerate(images)]; the state is
    [(all_excel_data, results)]. *)
Definition process_page (storage : option storage_service)
    (job_id : option string) (progress_callback : bool) (total_pages : Z)
    (st : list (list excel_row) * list page_result) (it : Z * page)
  : M (list (list excel_row) * list page_result) :=
  let '(all_excel_data, results) := st in
  let '(page_num, image) := it in
  let page_start_progress := page_progress total_pages page_num in
  let page_end_progress := page_progress total_pages (page_num + 1) in
  let page_progress_range := (page_end_progress - page_start_progress)%Z in
  let '(full_h, full_w) := shape image in
  _ ← notify progress_callback page_start_progress;
  df_ocr ← tile_ocr full_h full_w (from_image image) Config.OCR_BATCH_SIZE
             (Some (ocr_progress progress_callback
                                 page_start_progress page_progress_range));
  _ ← notify progress_callback
        (page_start_progress
         + Py.int ((3 # 4) * inject_Z page_progress_range))%Z;
  excel_data ← lift (extract_tendons image df_ocr);
  _ ← notify progress_callback
        (page_start_progress
         + Py.int ((17 # 20) * inject_Z page_progress_range))%Z;
  let excel_data := map (fun m => (m, (page_num + 1)%Z)) excel_data in
  let all_excel_data := all_excel_data ++ [excel_data] in
  let filename := ("page_" ++ Py.str_int page_num ++ ".png")%string in
  image_url ←
    match storage_for storage job_id with
    | Some (s, j) =>
        _ ← notify progress_callback
              (page_start_progress
               + Py.int ((19 # 20) * inject_Z page_progress_range))%Z;
        url ← lift (save_result_image s j page_num);
        mret (Some url)
    | None => mret None
    end;
  let results :=
    results ++ [mkPageResult (page_num + 1) filename image_url excel_data] in
  _ ← notify progress_callback page_end_progress;
  mret (all_excel_data, results).

(** The body of the [try] block. *)
Definition process_pdf_body (storage : option storage_service)
    (convert_from_path : result (list page)) (job_id : option string)
    (progress_callback : bool) : M response :=
  _ ← notify progress_callback 0;
  images ← lift convert_from_path;
  let total_pages := len images in
  _ ← notify progress_callback 5;
  '(all_excel_data, results) ←
    for_each (process_page storage job_id progress_callback total_pages)
             (enumerate images) ([], []);
  _ ← notify progress_callback 92;
  consolidated_excel ← lift (pd_concat all_excel_data);
  excel_path ←
    match storage_for storage job_id with
    | Some (s, j) =>
        _ ← notify progress_callback 95;
        path ← lift (save_excel s j consolidated_excel);
        mret (Some path)
    | None => mret None
    end;
  _ ← notify progress_callback 100;
  mret (Success total_pages (len consolidated_excel) results
                consolidated_excel excel_path).

(** [process_pdf]: the progress values reported, and the dictionary
    returned.  [except Exception as e] turns every exception into a
    failure dictionary carrying [str(e)]. *)
Definition process_pdf (storage : option storage_service)
    (convert_from_path : result (list page)) (job_id : option string)
    (progress_callback : bool) : list Z * response :=
  let m := process_pdf_body storage convert_from_path job_id
                            progress_callback in
  match outcome m with
  | Ok r => (log m, r)
  | Raise e => (log m, Failure (Py.str e))
  end.

End ProcessingService.

(** ** The in-process job store: [InMemoryJobQueue] *)

Module JobQueue.

(** The values the job dictionaries hold. *)
#[warnings="-register-all"]
Inductive pyval : Type :=
| VNone
| VStr (s : string)
| VInt (n : Z)
| VBool (b : bool)
| VList (l : list pyval).

(** A job record is a dictionary with string keys; [self.jobs] maps job
    ids to records.  Keyword arguments ([**kwargs]) are a dictionary
    too. *)
Abbreviation record := (gmap string pyval).
Abbreviation jobs := (gmap string (gmap string pyval)).

(** [{... , **kwargs}]: the keyword arguments are written last, so they
    win over the keys listed before them. *)
Definition dict_with_kwargs (base kwargs : record) : record :=
  kwargs ∪ base.

(** [d.update(other)]: the keys of [other] win. *)
Definition dict_update (d other : record) : record := other ∪ d.

(** [InMemoryJobQueue()] *)
Definition init : jobs := ∅.

(** [enqueue_job(job_id, pdf_path, **kwargs)]; [now] is
    [datetime.now().isoformat()]. *)
Definition enqueue_job (now : string) (q : jobs) (job_id pdf_path : string)
    (kwargs : record) : jobs * string :=
  (<[job_id :=
       dict_with_kwargs
         (<["status" := VStr "queued"]>
            (<["pdf_path" := VStr pdf_path]>
               (<["created_at" := VStr now]> ∅)))
         kwargs]> q,
   job_id).

(** [get_job_status(job_id)]: [self.jobs.get(job_id, {})] *)
Definition get_job_status (q : jobs) (job_id : string) : record :=
  default ∅ (q !! job_id).

(** [update_job_status(job_id, status, **kwargs)] *)
Definition update_job_status (now : string) (q : jobs) (job_id status : string)
    (kwargs : record) : jobs :=
  let q := match q !! job_id with
           | Some _ => q
           | None => <[job_id := ∅]> q
           end in
  let fields :=
    dict_with_kwargs
      (<["status" := VStr status]> (<["updated_at" := VStr now]> ∅))
      kwargs in
  <[job_id := dict_update (get_job_status q job_id) fields]> q.

(** [get_job_results(job_id)] *)
Definition get_job_results (q : jobs) (job_id : string) : pyval :=
  default (VList []) (get_job_status q job_id !! "results").

(** [save_job_results(job_id, results)] *)
Definition save_job_results (q : jobs) (job_id : string) (results : pyval)
  : jobs :=
  match q !! job_id with
  | Some job => <[job_id := <["results" := results]> job]> q
  | None => q
  end.

End JobQueue.

(** ** The cancellation endpoint: [cancel_job] *)

Module Api.
Import JobQueue.

(** What a view returns: a JSON body and an HTTP status code. *)
Record http_response : Type := mkResponse {
  body : gmap string pyval;
  code : Z
}.

(** [current_status in ['completed', 'failed']] *)
Definition is_finished (current_status : option pyval) : bool :=
  match current_status with
  | Some (VStr s) => String.eqb s "completed" || String.eqb s "failed"
  | _ => false
  end.

(** [str(x)] inside the f-string of the error message; only strings
    reach it. *)
Definition fmt (current_status : option pyval) : string :=
  match current_status with
  | Some (VStr s) => s
  | _ => "None"
  end.

(** [cancel_job(job_id)] over the in-process store.  No call in its
    [try] block raises on that store, so the [except] branch (HTTP 500)
    is not reachable here. *)
Definition cancel_job (now : string) (q : jobs) (job_id : string)
  : jobs * http_response :=
  let job_data := get_job_status q job_id in
  if decide (job_data = ∅) then
    (q, mkResponse {[ "error" := VStr "Job not found" ]} 404)
  else
    let current_status := job_data !! "status" in
    if is_finished current_status then
      (q, mkResponse
            {[ "error" := VStr ("Cannot cancel job with status: "
                                ++ fmt current_status) ]} 400)
    else
      let q := update_job_status now q job_id "cancelled"
                 {[ "message" := VStr "Job cancelled by user" ]} in
      (q, mkResponse
            (<["job_id" := VStr job_id]>
               (<["status" := VStr "cancelled"]>
                  {[ "message" := VStr "Job cancelled successfully" ]}))
            200).

End Api.

(** ** Upload validation: [allowed_file] ([api/upload.py], [app.py]) *)

Module Upload.
Import Detection.

(** [config.ALLOWED_EXTENSIONS] *)
Definition ALLOWED_EXTENSIONS : list string := ["pdf"].

Definition dot : ascii := "."%char.

(** Scan a reversed name up to its first dot: the characters before it
    and the characters after it, both still reversed. *)
Fixpoint span_dot (r : list ascii) : option (list ascii * list ascii) :=
  match r with
  | [] => None
  | c :: r' =>
      if Ascii.eqb c dot then Some ([], r')
      else match span_dot r' with
           | Some (a, b) => Some (c :: a, b)
           | None => None
           end
  end.

(** [filename.rsplit('.', 1)] *)
Definition rsplit_dot (filename : string) : list string :=
  match span_dot (rev (list_ascii_of_string filename)) with
  | Some (a, b) => [string_of_list_ascii (rev b); string_of_list_ascii (rev a)]
  | None => [filename]
  end.

(** ['.' in filename] *)
Definition has_dot (filename : string) : bool :=
  existsb (Ascii.eqb dot) (list_ascii_of_string filename).

(** [allowed_file(filename)]; the index [[1]] is only evaluated when the
    name has a dot. *)
Definition allowed_file (filename : string) : bool :=
  has_dot filename &&
  match rsplit_dot filename !! 1%nat with
  | Some ext => existsb (String.eqb (lower ext)) ALLOWED_EXTENSIONS
  | None => false
  end.

End Upload.

(** ** The background worker: [process_pdf_job] ([services/processing_worker.py]) *)

Module Worker.
Import JobQueue.

(** One invocation of the progress callback by [process_pdf]: the clock
    reading when it runs, and its two arguments. *)
Record call : Type := mkCall {
  call_time : string;
  call_progress : pyval;
  call_message : pyval
}.

(** What the worker reads from the dictionary [process_pdf] returns:
    [result['pages']], [result['total_pages']], [result['total_tendons']]
    and [result.get('excel_path')] on success, [result.get('error')]
    otherwise. *)
Inductive job_result : Type :=
| Succeeded (pages total_pages total_tendons excel_path : pyval)
| Failed (error : option pyval).

(** The nested [progress_callback(progress, message)]. *)
Definition progress_callback (job_id : string)
    (q : gmap string (gmap string pyval)) (c : call)
  : gmap string (gmap string pyval) :=
  update_job_status (call_time c) q job_id "processing"
    (<["progress" := call_progress c]> (<["message" := call_message c]> ∅)).

(** [process_pdf_job(job_id, pdf_path)] over the in-process store.
    [process_pdf] is the collaborator: it invokes the callback for each
    element of [calls], in order, and then returns [result]; it never
    raises.  [now_start] and [now_end] are the clock readings of the first
    and of the last store update. *)
Definition process_pdf_job (now_start now_end : string)
    (q : gmap string (gmap string pyval)) (job_id : string)
    (calls : list call) (result : job_result)
  : gmap string (gmap string pyval) :=
  let q := update_job_status now_start q job_id "processing"
             (<["progress" := VInt 0]>
                (<["message" := VStr "Starting processing..."]> ∅)) in
  let q := fold_left (progress_callback job_id) calls q in
  match result with
  | Succeeded pages total_pages total_tendons excel_path =>
      let q := save_job_results q job_id pages in
      update_job_status now_end q job_id "completed"
        (<["progress" := VInt 100]>
           (<["message" := VStr "Processing complete"]>
              (<["total_pages" := total_pages]>
                 (<["total_tendons" := total_tendons]>
                    (<["excel_path" := excel_path]> ∅)))))
  | Failed error =>
      update_job_status now_end q job_id "failed"
        (<["error" := default (VStr "Unknown error") error]> ∅)
  end.

End Worker.

(** ** Status and results queries: [get_status], [get_results] *)

Module Query.
Import JobQueue Api.

(** [bool(x)] *)
Definition truthy (v : pyval) : bool :=
  match v with
  | VNone => false
  | VStr s => negb (String.eqb s "")
  | VInt n => negb (n =? 0)%Z
  | VBool b => b
  | VList l => match l with [] => false | _ => true end
  end.

(** [job_data.get('status') == s] *)
Definition status_is (job_data : gmap string pyval) (s : string) : bool :=
  match job_data !! "status" with
  | Some (VStr s') => String.eqb s' s
  | _ => false
  end.

(** The answer of the [except] branch. *)
Definition server_error (e : exn) : http_response :=
  mkResponse {[ "error" := VStr (Py.str e) ]} 500.

Section WithInt.

(** The builtin [int(x)] on a stored value; it can raise. *)
Variable py_int : pyval -> result Z.

(** [int(job_data.get(key, 0))] *)
Definition int_field (job_data : gmap string pyval) (key : string)
  : result pyval :=
  n ← py_int (default (VInt 0) (job_data !! key));
  Ok (VInt n).

(** [get_status(job_id)] ([api/processing.py]) *)
Definition get_status (q : gmap string (gmap string pyval)) (job_id : string)
  : http_response :=
  let job_data := get_job_status q job_id in
  if decide (job_data = ∅) then
    mkResponse {[ "error" := VStr "Job not found" ]} 404
  else
    let answer : result (gmap string pyval) :=
      progress ← int_field job_data "progress";
      let response : gmap string pyval :=
        <["job_id" := VStr job_id]>
          (<["status" := default (VStr "unknown") (job_data !! "status")]>
             (<["progress" := progress]>
                (<["message" := default (VStr "") (job_data !! "message")]>
                   (<["filename" := default (VStr "") (job_data !! "filename")]>
                      ∅)))) in
      if status_is job_data "processing" then
        total_pages ← int_field job_data "total_pages";
        current_page ← int_field job_data "current_page";
        Ok (JobQueue.dict_update response
              (<["total_pages" := total_pages]>
                 (<["current_page" := current_page]> ∅)))
      else if status_is job_data "completed" then
        total_pages ← int_field job_data "total_pages";
        total_tendons ← int_field job_data "total_tendons";
        Ok (JobQueue.dict_update response
              (<["total_pages" := total_pages]>
                 (<["total_tendons" := total_tendons]>
                    (<["excel_available" :=
                         VBool (truthy (default VNone (job_data !! "excel_path")))]>
                       ∅))))
      else if status_is job_data "failed" then
        Ok (<["error" := default (VStr "Unknown error") (job_data !! "error")]>
              response)
      else Ok response in
    match answer with
    | Ok response => mkResponse response 200
    | Raise e => server_error e
    end.

(** [get_results(job_id)] ([api/results.py]) *)
Definition get_results (q : gmap string (gmap string pyval)) (job_id : string)
  : http_response :=
  let job_data := get_job_status q job_id in
  if decide (job_data = ∅) then
    mkResponse {[ "error" := VStr "Job not found" ]} 404
  else if negb (status_is job_data "completed") then
    mkResponse
      (<["error" := VStr "Job not completed"]>
         (<["status" := default VNone (job_data !! "status")]>
            (<["message" :=
                 VStr "Results are only available for completed jobs"]> ∅)))
      400
  else
    let results := get_job_results q job_id in
    let answer : result (gmap string pyval) :=
      total_pages ← int_field job_data "total_pages";
      total_tendons ← int_field job_data "total_tendons";
      Ok (<["job_id" := VStr job_id]>
            (<["status" := VStr "completed"]>
               (<["total_pages" := total_pages]>
                  (<["total_tendons" := total_tendons]>
                     (<["excel_file" :=
                          VStr ("/api/export/" ++ job_id ++ "/excel")]>
                        (<["pages" := results]> ∅)))))) in
    match answer with
    | Ok response => mkResponse response 200
    | Raise e => server_error e
    end.

End WithInt.

End Query.

(** ** Page-normalised coordinates *)

Module Page.
Import Detection.

(** All four coordinates of a row lie in [0, 1]. *)
Definition within_unit (r : row) : Prop :=
  ((0 <= x1 r <= 1) /\ (0 <= y1 r <= 1) /\
   (0 <= x2 r <= 1) /\ (0 <= y2 r <= 1))%Q.

End Page.

(** ** What a successful run reports for a page *)

Module Report.
Import ProcessingService.

(** The entry of [result['pages']] for the page of index [page_num]: its
    1-based page number, its file name, measurement rows tagged with the
    page number, and no image URL when nothing was stored. *)
Definition entry_of_page (stored : bool) (page_num : Z) (pr : page_result)
  : Prop :=
  pr_page pr = (page_num + 1)%Z /\
  pr_filename pr = ("page_" ++ Py.str_int page_num ++ ".png")%string /\
  Forall (fun row : excel_row => row.2 = (page_num + 1)%Z) (pr_measurements pr) /\
  (stored = false -> pr_image_url pr = None).

End Report.

(** * Properties *)

(** ** Tiling *)

Section TilerFacts.
Import Tiler.
Local Open Scope Z_scope.

Lemma range_ok (start stop step : Z) :
  step <> 0 ->
  Py.range start stop step
  = Ok (map (fun k : nat => start + Z.of_nat k * step)
            (seq 0 (Z.to_nat (Py.range_len start stop step)))).
Proof.
  intros Hs. unfold Py.range.
  destruct (Z.eqb_spec step 0); [contradiction | reflexivity].
Qed.

Lemma range_member (stop step p : Z) :
  0 < step -> 0 <= p < stop ->
  In (step * (p / step)) (map (fun k : nat => 0 + Z.of_nat k * step)
                             (seq 0 (Z.to_nat (Py.range_len 0 stop step)))).
Proof.
  intros Hs Hp. apply in_map_iff.
  exists (Z.to_nat (p / step)).
  assert (0 <= p / step) by (apply Z.div_pos; lia).
  split; [rewrite Z2Nat.id by lia; lia |].
  apply in_seq. unfold Py.range_len.
  destruct (Z.ltb_spec 0 step); [| lia].
  destruct (Z.ltb_spec 0 stop); [| lia].
  assert (p / step <= (stop - 0 - 1) / step)
    by (apply Z.div_le_mono; lia).
  lia.
Qed.

Lemma crop_step_incl h w ts y st x t :
  In t (fst st) -> In t (fst (crop_step h w ts y st x)).
Proof.
  destruct st as [tiles tid]. unfold crop_step.
  destruct (_ =? 0); simpl; [tauto |].
  intros Ht. apply in_or_app. now left.
Qed.

Lemma crop_row_incl h w ts y xs st t :
  In t (fst st) -> In t (fst (fold_left (crop_step h w ts y) xs st)).
Proof.
  revert st. induction xs as [| x xs IH]; intros st Ht; simpl; [exact Ht |].
  apply IH. now apply crop_step_incl.
Qed.

Lemma crop_rows_incl h w ts ys xs st t :
  In t (fst st) ->
  In t (fst (fold_left (fun st y => fold_left (crop_step h w ts y) xs st)
                       ys st)).
Proof.
  revert st. induction ys as [| y ys IH]; intros st Ht; simpl; [exact Ht |].
  apply IH. now apply crop_row_incl.
Qed.

Lemma crop_row_emits h w ts y xs st x :
  In x xs ->
  slice_len y (y + ts) h * slice_len x (x + ts) w <> 0 ->
  exists tid,
    In (mkTile tid x y (slice_len y (y + ts) h) (slice_len x (x + ts) w))
       (fst (fold_left (crop_step h w ts y) xs st)).
Proof.
  revert st. induction xs as [| x' xs IH]; intros st Hx Hne; [destruct Hx |].
  simpl. destruct Hx as [-> | Hx]; [| now apply IH].
  destruct st as [tiles tid]. exists tid.
  apply crop_row_incl. unfold crop_step.
  destruct (Z.eqb_spec (slice_len y (y + ts) h * slice_len x (x + ts) w) 0);
    [contradiction |].
  simpl. apply in_or_app. right. now left.
Qed.

Lemma crop_rows_emit h w ts ys xs st y x :
  In y ys -> In x xs ->
  slice_len y (y + ts) h * slice_len x (x + ts) w <> 0 ->
  exists tid,
    In (mkTile tid x y (slice_len y (y + ts) h) (slice_len x (x + ts) w))
       (fst (fold_left (fun st y => fold_left (crop_step h w ts y) xs st)
                       ys st)).
Proof.
  revert st. induction ys as [| y' ys IH]; intros st Hy Hx Hne; [destruct Hy |].
  simpl. destruct Hy as [-> | Hy]; [| now apply IH].
  destruct (crop_row_emits h w ts y xs st x Hx Hne) as [tid Ht].
  exists tid. now apply crop_rows_incl.
Qed.

(** The slice [a[o : o + ts]] taken at a grid offset [o] at or before an
    in-range position [p] that it reaches. *)
Lemma slice_len_covering o ts len p :
  0 <= o <= p -> p < len -> p < o + ts ->
  slice_len o (o + ts) len = Z.min (o + ts) len - o /\
  p < o + slice_len o (o + ts) len <= len.
Proof.
  intros Ho Hp Hts. unfold slice_len, slice_index.
  destruct (Z.ltb_spec (o + ts) 0); [lia |].
  destruct (Z.ltb_spec o 0); lia.
Qed.

(** ** C5 *)

(** C5. For an image of height [h] and width [w] and parameters with
    [tile_size > overlap >= 0], every pixel [(py, px)] of the image lies
    inside the clipped extent of a tile that [crop_tiles] emits; that
    extent stays within the image. *)
Theorem crop_tiles_covers_every_pixel (h w tile_size overlap py px : Z) :
  0 <= overlap < tile_size ->
  0 <= py < h -> 0 <= px < w ->
  exists tiles t,
    crop_tiles h w tile_size overlap = Ok tiles /\
    In t tiles /\
    (y_offset t <= py < y_offset t + tile_h t /\ y_offset t + tile_h t <= h) /\
    (x_offset t <= px < x_offset t + tile_w t /\ x_offset t + tile_w t <= w).
Proof.
  intros Hov Hpy Hpx.
  set (stride := tile_size - overlap).
  assert (Hs : 0 < stride) by (unfold stride; lia).
  set (y := stride * (py / stride)). set (x := stride * (px / stride)).
  assert (Hy : 0 <= y <= py /\ py < y + stride).
  { unfold y. pose proof (Z.mul_div_le py stride Hs).
    pose proof (Z.mul_succ_div_gt py stride Hs).
    assert (0 <= py / stride) by (apply Z.div_pos; lia). nia. }
  assert (Hx : 0 <= x <= px /\ px < x + stride).
  { unfold x. pose proof (Z.mul_div_le px stride Hs).
    pose proof (Z.mul_succ_div_gt px stride Hs).
    assert (0 <= px / stride) by (apply Z.div_pos; lia). nia. }
  destruct (slice_len_covering y tile_size h py) as [_ Hh];
    [lia | lia | unfold stride in *; lia |].
  destruct (slice_len_covering x tile_size w px) as [_ Hw];
    [lia | lia | unfold stride in *; lia |].
  unfold crop_tiles. fold stride.
  rewrite !range_ok by lia. cbn [mbind result_bind].
  destruct (crop_rows_emit h w tile_size
              _ _ ([], 0) y x
              (range_member h stride py Hs Hpy)
              (range_member w stride px Hs Hpx)) as [tid Ht]; [nia |].
  eexists _, _. split; [reflexivity |]. split; [exact Ht |].
  simpl. lia.
Qed.

Lemma crop_tiles_covers_every_pixel_witness :
  exists tiles t,
    crop_tiles 1600 1000 1000 250 = Ok tiles /\
    In t tiles /\
    (y_offset t <= 1599 < y_offset t + tile_h t /\ y_offset t + tile_h t <= 1600) /\
    (x_offset t <= 999 < x_offset t + tile_w t /\ x_offset t + tile_w t <= 1000).
Proof.
  apply (crop_tiles_covers_every_pixel 1600 1000 1000 250 1599 999); lia.
Defined.

(** ** C4 *)

(** C4, as the claim states it, fails: with a negative stride the tiler
    returns an empty tile sequence instead of failing. *)
Lemma crop_tiles_negative_stride_returns :
  5 - 10 <= 0 /\ crop_tiles 10 10 5 10 = Ok [].
Proof. split; [lia | reflexivity]. Qed.

(** C4, amended. For an image of shape [(h, w)] and parameters with
    [stride = tile_size - overlap <= 0]: when the stride is zero the tiler
    fails with the [ValueError] of [range]; when it is negative the tiler
    returns the empty tile sequence. *)
Theorem crop_tiles_nonpositive_stride (h w tile_size overlap : Z) :
  0 <= h -> 0 <= w ->
  tile_size - overlap <= 0 ->
  (tile_size - overlap = 0 ->
   crop_tiles h w tile_size overlap
   = Raise (ValueError "range() arg 3 must not be zero")) /\
  (tile_size - overlap < 0 -> crop_tiles h w tile_size overlap = Ok []).
Proof.
  intros Hh Hw Hle. split; intros Hs; unfold crop_tiles.
  - rewrite Hs. reflexivity.
  - rewrite !range_ok by lia. cbn [mbind result_bind].
    unfold Py.range_len.
    destruct (Z.ltb_spec 0 (tile_size - overlap)); [lia |].
    destruct (Z.ltb_spec h 0); [lia |].
    reflexivity.
Qed.

Lemma crop_tiles_nonpositive_stride_witness :
  (5 - 5 = 0 ->
   crop_tiles 10 10 5 5 = Raise (ValueError "range() arg 3 must not be zero")) /\
  (5 - 5 < 0 -> crop_tiles 10 10 5 5 = Ok []).
Proof. apply (crop_tiles_nonpositive_stride 10 10 5 5); lia. Defined.

End TilerFacts.

(** ** Overlap ratio *)

Section IouFacts.
Import Detection Dedup.
Local Open Scope Q_scope.

Lemma Qpositive_true x : Qpositive x = true <-> 0 < x.
Proof.
  unfold Qpositive. rewrite negb_true_iff, <- not_true_iff_false, Qle_bool_iff.
  split; [apply Qnot_le_lt | apply Qlt_not_le].
Qed.

Lemma Qpositive_false x : Qpositive x = false <-> x <= 0.
Proof.
  unfold Qpositive. rewrite negb_false_iff, Qle_bool_iff. reflexivity.
Qed.

(** The clipped overlap of two intervals is non-negative and no longer
    than either interval. *)
Lemma overlap_bounds (a1 a2 b1 b2 : Q) :
  a1 <= a2 -> b1 <= b2 ->
  0 <= Qmax 0 (Qmin a2 b2 - Qmax a1 b1) /\
  Qmax 0 (Qmin a2 b2 - Qmax a1 b1) <= a2 - a1 /\
  Qmax 0 (Qmin a2 b2 - Qmax a1 b1) <= b2 - b1.
Proof.
  intros Ha Hb.
  pose proof (Q.le_min_l a2 b2). pose proof (Q.le_min_r a2 b2).
  pose proof (Q.le_max_l a1 b1). pose proof (Q.le_max_r a1 b1).
  split; [apply Q.le_max_l |].
  split; apply Q.max_lub; lra.
Qed.

Lemma inter_area_bounds (a b : box) :
  well_formed a -> well_formed b ->
  0 <= inter_area a b /\ inter_area a b <= area a /\ inter_area a b <= area b.
Proof.
  destruct a as [[[xa1 ya1] xa2] ya2], b as [[[xb1 yb1] xb2] yb2].
  intros [Hax Hay] [Hbx Hby]. unfold inter_area, area.
  destruct (overlap_bounds xa1 xa2 xb1 xb2 Hax Hbx) as (Hw0 & Hwa & Hwb).
  destruct (overlap_bounds ya1 ya2 yb1 yb2 Hay Hby) as (Hh0 & Hha & Hhb).
  set (iw := Qmax 0 (Qmin xa2 xb2 - Qmax xa1 xb1)) in *.
  set (ih := Qmax 0 (Qmin ya2 yb2 - Qmax ya1 yb1)) in *.
  split; [apply Qmult_le_0_compat; assumption |].
  split; apply Qmult_le_compat_nonneg; split; assumption.
Qed.

(** ** C7 *)

(** C7. [box_iou a b] is [inter_area / union_area] when the union area
    is positive and [0] when it is zero (indeed whenever it is not
    positive); for well-formed boxes the result lies in [0, 1]. *)
Theorem box_iou_ratio_and_range (a b : box) :
  (0 < union_area a b -> box_iou a b = inter_area a b / union_area a b) /\
  (union_area a b <= 0 -> box_iou a b = 0) /\
  (union_area a b == 0 -> box_iou a b = 0) /\
  (well_formed a -> well_formed b -> 0 <= box_iou a b <= 1).
Proof.
  assert (Hpos : 0 < union_area a b ->
                 box_iou a b = inter_area a b / union_area a b).
  { intros H. unfold box_iou. apply Qpositive_true in H. now rewrite H. }
  assert (Hnon : union_area a b <= 0 -> box_iou a b = 0).
  { intros H. unfold box_iou. apply Qpositive_false in H. now rewrite H. }
  repeat split; try assumption.
  - intros H. apply Hnon. rewrite H. apply Qle_refl.
  - destruct (inter_area_bounds a b H H0) as (Hi0 & Hia & Hib).
    destruct (Qlt_le_dec 0 (union_area a b)) as [Hu | Hu].
    + rewrite (Hpos Hu). apply Qle_shift_div_l; [exact Hu | lra].
    + rewrite (Hnon Hu). apply Qle_refl.
  - destruct (inter_area_bounds a b H H0) as (Hi0 & Hia & Hib).
    destruct (Qlt_le_dec 0 (union_area a b)) as [Hu | Hu].
    + rewrite (Hpos Hu). apply Qle_shift_div_r; [exact Hu |].
      unfold union_area in *. lra.
    + rewrite (Hnon Hu). discriminate.
Qed.

Lemma box_iou_ratio_and_range_witness :
  box_iou (0, 0, 1 # 2, 1 # 2) (0, 0, 1 # 2, 6 # 10)
  = inter_area (0, 0, 1 # 2, 1 # 2) (0, 0, 1 # 2, 6 # 10)
    / union_area (0, 0, 1 # 2, 1 # 2) (0, 0, 1 # 2, 6 # 10)
  /\ 0 <= box_iou (0, 0, 1 # 2, 1 # 2) (0, 0, 1 # 2, 6 # 10) <= 1.
Proof.
  pose proof (box_iou_ratio_and_range
                (0, 0, 1 # 2, 1 # 2) (0, 0, 1 # 2, 6 # 10)) as (H1 & _ & _ & H2).
  split.
  - apply H1. reflexivity.
  - apply H2; split; discriminate.
Defined.

End IouFacts.

(** ** Projection *)

Section ProjectorFacts.
Import Detection Projector.
Local Open Scope Q_scope.

Lemma inject_Z_nonzero (n : Z) : (n <> 0)%Z -> ~ inject_Z n == 0.
Proof.
  intros Hn H. apply Hn. unfold Qeq, inject_Z in H. simpl in H. lia.
Qed.

(** De-normalising the tile-normalised coordinate of a page pixel and
    re-normalising by the page dimension. *)
Lemma renormalise (p : Q) (offset tile_dim full_dim : Z) :
  (tile_dim <> 0)%Z ->
  ((p - inject_Z offset) / inject_Z tile_dim * inject_Z tile_dim
   + inject_Z offset) / inject_Z full_dim
  == p / inject_Z full_dim.
Proof.
  intros Ht. apply inject_Z_nonzero in Ht.
  apply Qmult_inj_r with (z := 1); [discriminate |].
  rewrite !Qmult_1_r. apply Qmult_comp; [| reflexivity].
  field. exact Ht.
Qed.

(** ** C6 *)

(** C6. Each projected coordinate is [(c_tile * tile_dim + offset) /
    full_dim].  Hence, for a page-pixel box [(px1, py1, px2, py2)] and a
    tile with non-zero dimensions, projecting the row whose coordinates are
    [(p - offset) / tile_dim] gives [p / full_dim] on every axis, whatever
    the tile's size and offset; two tiles that see the same page-pixel box
    therefore project it to the same page-normalised box. *)
Theorem projection_recovers_page_coordinate
    (x_offset y_offset tile_w tile_h full_w full_h tid : Z) (r : row) :
  let d := project_row x_offset y_offset tile_w tile_h full_w full_h tid r in
  (x1 (cells d) = (x1 r * inject_Z tile_w + inject_Z x_offset) / inject_Z full_w /\
   y1 (cells d) = (y1 r * inject_Z tile_h + inject_Z y_offset) / inject_Z full_h /\
   x2 (cells d) = (x2 r * inject_Z tile_w + inject_Z x_offset) / inject_Z full_w /\
   y2 (cells d) = (y2 r * inject_Z tile_h + inject_Z y_offset) / inject_Z full_h) /\
  (forall px1 py1 px2 py2 : Q,
      (tile_w <> 0)%Z -> (tile_h <> 0)%Z ->
      x1 r = (px1 - inject_Z x_offset) / inject_Z tile_w ->
      y1 r = (py1 - inject_Z y_offset) / inject_Z tile_h ->
      x2 r = (px2 - inject_Z x_offset) / inject_Z tile_w ->
      y2 r = (py2 - inject_Z y_offset) / inject_Z tile_h ->
      (x1 (cells d) == px1 / inject_Z full_w /\
       y1 (cells d) == py1 / inject_Z full_h /\
       x2 (cells d) == px2 / inject_Z full_w /\
       y2 (cells d) == py2 / inject_Z full_h) /\
      forall (x_offset' y_offset' tile_w' tile_h' tid' : Z) (r' : row),
        (tile_w' <> 0)%Z -> (tile_h' <> 0)%Z ->
        x1 r' = (px1 - inject_Z x_offset') / inject_Z tile_w' ->
        y1 r' = (py1 - inject_Z y_offset') / inject_Z tile_h' ->
        x2 r' = (px2 - inject_Z x_offset') / inject_Z tile_w' ->
        y2 r' = (py2 - inject_Z y_offset') / inject_Z tile_h' ->
        let d' := project_row x_offset' y_offset' tile_w' tile_h'
                              full_w full_h tid' r' in
        x1 (cells d') == x1 (cells d) /\ y1 (cells d') == y1 (cells d) /\
        x2 (cells d') == x2 (cells d) /\ y2 (cells d') == y2 (cells d)).
Proof.
  intros d. split; [repeat split |].
  intros px1 py1 px2 py2 Hw Hh E1 E2 E3 E4.
  assert (Hd : x1 (cells d) == px1 / inject_Z full_w /\
               y1 (cells d) == py1 / inject_Z full_h /\
               x2 (cells d) == px2 / inject_Z full_w /\
               y2 (cells d) == py2 / inject_Z full_h).
  { unfold d. simpl. rewrite E1, E2, E3, E4.
    repeat split; now apply renormalise. }
  split; [exact Hd |].
  intros xo' yo' tw' th' tid' r' Hw' Hh' E1' E2' E3' E4' d'.
  destruct Hd as (D1 & D2 & D3 & D4). rewrite D1, D2, D3, D4.
  unfold d'. simpl. rewrite E1', E2', E3', E4'.
  repeat split; now apply renormalise.
Qed.

Lemma projection_recovers_page_coordinate_witness :
  let r := mkRow "a" (9 # 10)
                 ((800 - inject_Z 750) / inject_Z 250)
                 ((100 - inject_Z 0) / inject_Z 1000)
                 ((900 - inject_Z 750) / inject_Z 250)
                 ((200 - inject_Z 0) / inject_Z 1000) in
  let d := project_row 750 0 250 1000 1000 1600 1 r in
  x1 (cells d) == 800 / inject_Z 1000 /\
  y1 (cells d) == 100 / inject_Z 1600 /\
  x2 (cells d) == 900 / inject_Z 1000 /\
  y2 (cells d) == 200 / inject_Z 1600.
Proof.
  intros r d.
  apply (proj2 (projection_recovers_page_coordinate 750 0 250 1000 1000 1600 1 r)
               800 100 900 200); (lia || reflexivity).
Defined.

(** Projection keeps a box well-formed when the tile has non-negative
    dimensions and the page positive ones. *)
Lemma project_row_well_formed
    (x_offset y_offset tile_w tile_h full_w full_h tid : Z) (r : row) :
  (0 <= tile_w)%Z -> (0 <= tile_h)%Z -> (0 < full_w)%Z -> (0 < full_h)%Z ->
  well_formed_row r ->
  well_formed_row
    (cells (project_row x_offset y_offset tile_w tile_h full_w full_h tid r)).
Proof.
  intros Htw Hth Hfw Hfh [Hx Hy].
  assert (0 <= inject_Z tile_w) by (rewrite <- (Zle_Qle 0); exact Htw).
  assert (0 <= inject_Z tile_h) by (rewrite <- (Zle_Qle 0); exact Hth).
  assert (0 < inject_Z full_w) by (rewrite <- (Zlt_Qlt 0); exact Hfw).
  assert (0 < inject_Z full_h) by (rewrite <- (Zlt_Qlt 0); exact Hfh).
  split; simpl; unfold Qdiv; apply Qmult_le_compat_r;
    try (apply Qlt_le_weak, Qinv_lt_0_compat; assumption);
    apply Qplus_le_compat; try apply Qle_refl;
    apply Qmult_le_compat_r; assumption.
Qed.

End ProjectorFacts.

(** ** Deduplication *)

Section DedupFacts.
Import Detection Dedup.

(** *** The sort *)

Lemma insert_desc_perm d l : Permutation (insert_desc d l) (d :: l).
Proof.
  induction l as [| e l IH]; simpl; [reflexivity |].
  destruct (Qle_bool _ _); [reflexivity |].
  rewrite IH. apply perm_swap.
Qed.

Lemma sort_values_perm df : Permutation (sort_values df) df.
Proof.
  induction df as [| d df IH]; simpl; [reflexivity |].
  rewrite insert_desc_perm. now constructor.
Qed.

Lemma insert_desc_sorted d l :
  StronglySorted conf_ge l -> StronglySorted conf_ge (insert_desc d l).
Proof.
  induction 1 as [| e l Hs IH Hall]; simpl.
  - repeat constructor.
  - destruct (Qle_bool (confidence (cells e)) (confidence (cells d))) eqn:E.
    + apply Qle_bool_iff in E.
      constructor; [now constructor |].
      constructor; [exact E |].
      eapply Forall_impl; [exact Hall |].
      intros x Hx. unfold conf_ge in *. eapply Qle_trans; eassumption.
    + constructor; [exact IH |].
      eapply Permutation_Forall;
        [symmetry; apply insert_desc_perm |].
      constructor; [| exact Hall].
      unfold conf_ge. apply Qlt_le_weak, Qnot_le_lt.
      rewrite <- Qle_bool_iff, E. discriminate.
Qed.

Lemma sort_values_sorted df : StronglySorted conf_ge (sort_values df).
Proof.
  induction df as [| d df IH]; simpl; [constructor |].
  now apply insert_desc_sorted.
Qed.

(** *** The loops *)

Lemma duplicates_spec t di dj :
  duplicates t di dj = true <->
  norm_text di = norm_text dj /\ (t <= box_iou (box_of di) (box_of dj))%Q.
Proof.
  unfold duplicates.
  rewrite andb_true_iff, String.eqb_eq, Qle_bool_iff. reflexivity.
Qed.

Lemma inner_step_spec df t di (sup : gset nat) j k :
  k ∈ inner_step df t di sup j <->
  k ∈ sup \/ (k = j /\ exists dj, df !! j = Some dj /\ duplicates t di dj = true).
Proof.
  unfold inner_step.
  destruct (decide (j ∈ sup)) as [Hj | Hj].
  { split; [tauto |]. intros [H | [-> _]]; assumption. }
  destruct (df !! j) as [dj |] eqn:E.
  2:{ split; [tauto |]. intros [H | [_ (dj & Hd & _)]]; [exact H | discriminate]. }
  assert (Hex : (exists dj', Some dj = Some dj' /\ duplicates t di dj' = true)
                <-> duplicates t di dj = true).
  { split; [intros (dj' & Hd & H); now injection Hd as <- | eauto]. }
  rewrite Hex. unfold duplicates.
  destruct (String.eqb (norm_text di) (norm_text dj)); simpl;
    [| split; [tauto | intros [H | [_ H]]; [exact H | discriminate]]].
  destruct (Qle_bool t _).
  - rewrite elem_of_union, elem_of_singleton. tauto.
  - split; [tauto | intros [H | [_ H]]; [exact H | discriminate]].
Qed.

Lemma inner_loop_spec df t di js (sup : gset nat) k :
  k ∈ fold_left (inner_step df t di) js sup <->
  k ∈ sup \/ (In k js /\ exists dj, df !! k = Some dj /\ duplicates t di dj = true).
Proof.
  revert sup. induction js as [| j js IH]; intros sup; simpl.
  - split; [tauto | intros [H | [[] _]]; exact H].
  - rewrite IH, inner_step_spec. split.
    + intros [[H | [-> H]] | [H1 H2]]; [tauto | right | right]; tauto.
    + intros [H | [[<- | H1] H2]]; [tauto | left; right; tauto | tauto].
Qed.

Lemma filter_ext_on {A} (P Q : A -> Prop)
    `{forall x, Decision (P x)} `{forall x, Decision (Q x)} (l : list A) :
  (forall x, In x l -> (P x <-> Q x)) -> filter P l = filter Q l.
Proof.
  induction l as [| x l IH]; intros Hl; [reflexivity |].
  rewrite !filter_cons.
  rewrite IH by (intros y Hy; apply Hl; now right).
  destruct (decide (P x)) as [Hp | Hp], (decide (Q x)) as [Hq | Hq];
    try reflexivity;
    exfalso; apply (Hl x (or_introl eq_refl)) in Hp || apply Hp, (Hl x (or_introl eq_refl)); tauto.
Qed.

(** The state of the outer loop after its first [k] iterations: [keep]
    lists the positions below [k] that are not suppressed, and a position
    is suppressed exactly when a surviving position before it, below [k],
    duplicates it. *)
Lemma nms_prefix df t k :
  k <= length df ->
  let st := fold_left (outer_step df t) (seq 0 k) ([], ∅) in
  st.1 = filter (fun i => i ∉ st.2) (seq 0 k) /\
  forall j, j ∈ st.2 <->
    exists i, i < k /\ i < j < length df /\ (i ∉ st.2) /\
      exists di dj, df !! i = Some di /\ df !! j = Some dj /\
                    duplicates t di dj = true.
Proof.
  induction k as [| k IH]; intros Hk.
  - simpl. split; [reflexivity |]. intros j. split.
    + intros H. destruct (not_elem_of_empty (C := gset nat) j H).
    + intros (i & Hi & _). lia.
  - specialize (IH ltac:(lia)). cbv zeta in *.
    rewrite seq_S, fold_left_app. simpl.
    destruct (fold_left (outer_step df t) (seq 0 k) ([], ∅)) as [keep sup].
    simpl in IH. destruct IH as [IHk IHs].
    unfold outer_step. destruct (decide (k ∈ sup)) as [Hin | Hout].
    + simpl. split.
      * rewrite filter_app, (filter_singleton_False _ k []) by tauto.
        now rewrite app_nil_r.
      * intros j. rewrite IHs. split.
        -- intros (i & Hi & Hr). exists i. split; [lia | exact Hr].
        -- intros (i & Hi & Hij & Hni & Hd). exists i.
           assert (i <> k) by (intros ->; contradiction).
           split; [lia | tauto].
    + destruct (lookup_lt_is_Some_2 df k ltac:(lia)) as [dk Hdk].
      rewrite Hdk. simpl.
      set (sup' := fold_left (inner_step df t dk)
                             (seq (S k) (length df - S k)) sup).
      assert (Hsup' : forall j, j ∈ sup' <->
                j ∈ sup \/ (k < j < length df /\
                  exists dj, df !! j = Some dj /\ duplicates t dk dj = true)).
      { intros j. unfold sup'. rewrite inner_loop_spec, in_seq.
        split; intros [H | [H1 H2]]; try tauto; right; split; try tauto; lia. }
      assert (Hold : forall i, i <= k -> (i ∈ sup' <-> i ∈ sup)).
      { intros i Hi. rewrite Hsup'. split; [| tauto].
        intros [H | [H _]]; [exact H | lia]. }
      split.
      * rewrite filter_app, (filter_singleton_True _ k [])
          by (rewrite Hold by lia; exact Hout).
        f_equal. rewrite IHk. apply filter_ext_on.
        intros i Hi. apply in_seq in Hi. rewrite Hold by lia. reflexivity.
      * intros j. rewrite Hsup', IHs. split.
        -- intros [(i & Hi & Hij & Hni & Hd) | [Hkj Hd]].
           ++ exists i. rewrite Hold by lia. split; [lia | tauto].
           ++ exists k. rewrite Hold by lia.
              destruct Hd as (dj & Hdj & Hd).
              split; [lia |]. split; [lia |]. split; [exact Hout |].
              exists dk, dj. tauto.
        -- intros (i & Hi & Hij & Hni & di & dj & Hdi & Hdj & Hd).
           rewrite Hold in Hni by lia.
           destruct (decide (i = k)) as [-> | Hne].
           ++ right. split; [lia |]. exists dj.
              rewrite Hdk in Hdi. injection Hdi as ->. tauto.
           ++ left. exists i. split; [lia |]. split; [lia |].
              split; [exact Hni |]. exists di, dj. tauto.
Qed.

Lemma nms_spec df t :
  (nms df t).1 = filter (fun i => i ∉ (nms df t).2) (seq 0 (length df)) /\
  forall j, j ∈ (nms df t).2 <->
    exists i, i < j < length df /\ (i ∉ (nms df t).2) /\
      exists di dj, df !! i = Some di /\ df !! j = Some dj /\
                    duplicates t di dj = true.
Proof.
  destruct (nms_prefix df t (length df) (le_n _)) as [Hk Hs].
  split; [exact Hk |].
  intros j. rewrite (Hs j). split.
  - intros (i & _ & Hr). exists i. exact Hr.
  - intros (i & Hij & Hr). exists i. split; [lia |]. tauto.
Qed.


(** *** Two detections *)

Lemma Qpositive_proper x y : (x == y)%Q -> Qpositive x = Qpositive y.
Proof.
  intros E. unfold Qpositive. f_equal.
  apply eq_true_iff_eq. rewrite !Qle_bool_iff, E. reflexivity.
Qed.

Lemma inter_area_sym a b : (inter_area a b == inter_area b a)%Q.
Proof.
  destruct a as [[[xa1 ya1] xa2] ya2], b as [[[xb1 yb1] xb2] yb2].
  unfold inter_area.
  rewrite (Q.max_comm xa1 xb1), (Q.max_comm ya1 yb1),
          (Q.min_comm xa2 xb2), (Q.min_comm ya2 yb2).
  reflexivity.
Qed.

Lemma union_area_sym a b : (union_area a b == union_area b a)%Q.
Proof.
  unfold union_area. rewrite (inter_area_sym a b). ring.
Qed.

Lemma box_iou_sym a b : (box_iou a b == box_iou b a)%Q.
Proof.
  unfold box_iou.
  rewrite (Qpositive_proper _ _ (union_area_sym a b)).
  destruct (Qpositive (union_area b a)); [| reflexivity].
  rewrite (inter_area_sym a b), (union_area_sym a b). reflexivity.
Qed.

Lemma duplicates_sym t a b : duplicates t a b = duplicates t b a.
Proof.
  apply eq_true_iff_eq. rewrite !duplicates_spec.
  rewrite (box_iou_sym (box_of a) (box_of b)).
  split; intros [H1 H2]; (split; [congruence | exact H2]).
Qed.

(** The greedy pass over a table of two rows. *)
Lemma nms_pair p q t :
  loc [p; q] (nms [p; q] t).1 = if duplicates t p q then [p] else [p; q].
Proof.
  destruct (nms_spec [p; q] t) as [Hk Hs]. rewrite Hk.
  set (sup := (nms [p; q] t).2) in *.
  assert (H0 : 0 ∉ sup).
  { intros H. apply Hs in H as (i & Hi & _). lia. }
  assert (H1 : 1 ∈ sup <-> duplicates t p q = true).
  { rewrite Hs. split.
    - intros (i & Hi & _ & di & dj & Hdi & Hdj & Hd).
      assert (i = 0) as -> by lia. simpl in Hdi, Hdj. congruence.
    - intros Hd. exists 0. simpl. split; [lia |]. split; [exact H0 |].
      exists p, q. tauto. }
  change (seq 0 (length [p; q])) with [0; 1].
  rewrite filter_cons_True by exact H0.
  destruct (duplicates t p q).
  - rewrite filter_cons_False by (intros H; apply H, H1; reflexivity).
    reflexivity.
  - rewrite filter_cons_True
      by (intros H; apply H1 in H; discriminate).
    reflexivity.
Qed.

Lemma sort_values_pair a b :
  sort_values [a; b]
  = if Qle_bool (confidence (cells b)) (confidence (cells a))
    then [a; b] else [b; a].
Proof. reflexivity. Qed.

(** ** C1 *)

(** C1. [deduplicate_ocr] sorts the table by descending confidence and
    suppresses greedily.  In the scan started by a surviving position, a
    later position [j] that is not yet suppressed becomes suppressed iff
    the normalised texts are equal and the box IoU is at least the
    threshold; so a position ends up suppressed iff an earlier surviving
    position duplicates it, and the output is the sorted table restricted
    to the surviving positions.  Consequently a table of two detections
    with equal normalised text and IoU at least the threshold reduces to
    exactly one row, one of highest confidence, and a table of two
    detections with different normalised text keeps both, whatever their
    boxes. *)
Theorem deduplicate_ocr_greedy :
  (forall (df : list detection) (t : Q),
      let s := sort_values df in
      let sup := (nms s t).2 in
      (Permutation s df /\ StronglySorted conf_ge s) /\
      (forall (di : detection) (suppressed : gset nat) (j : nat) (dj : detection),
          j ∉ suppressed -> s !! j = Some dj ->
          (j ∈ inner_step s t di suppressed j <->
           norm_text di = norm_text dj /\
           (t <= box_iou (box_of di) (box_of dj))%Q)) /\
      (forall j, j ∈ sup <->
         exists i, i < j < length s /\ (i ∉ sup) /\
           exists di dj, s !! i = Some di /\ s !! j = Some dj /\
             norm_text di = norm_text dj /\
             (t <= box_iou (box_of di) (box_of dj))%Q) /\
      deduplicate_ocr df t
      = omap (fun i => s !! i)
             (filter (fun i => i ∉ sup) (seq 0 (length s)))) /\
  (forall (a b : detection) (t : Q),
      norm_text a = norm_text b ->
      (t <= box_iou (box_of a) (box_of b))%Q ->
      exists d, deduplicate_ocr [a; b] t = [d] /\ (d = a \/ d = b) /\
                conf_ge d a /\ conf_ge d b) /\
  (forall (a b : detection) (t : Q),
      norm_text a <> norm_text b ->
      deduplicate_ocr [a; b] t = sort_values [a; b] /\
      Permutation (deduplicate_ocr [a; b] t) [a; b]).
Proof.
  split; [| split].
  - intros df t s sup.
    split; [split; [apply sort_values_perm | apply sort_values_sorted] |].
    split.
    { intros di suppressed j dj Hj Hdj.
      rewrite inner_step_spec, <- duplicates_spec. split.
      - intros [H | [_ (dj' & Hd & H)]]; [contradiction | congruence].
      - intros H. right. split; [reflexivity |]. exists dj. tauto. }
    destruct (nms_spec s t) as [Hk Hs]. split.
    { intros j. fold sup in Hs. rewrite Hs. split.
      - intros (i & Hij & Hni & di & dj & Hdi & Hdj & Hd).
        apply duplicates_spec in Hd. exists i. repeat split; try tauto; try lia.
        exists di, dj. tauto.
      - intros (i & Hij & Hni & di & dj & Hdi & Hdj & Hd).
        exists i. repeat split; try tauto; try lia.
        exists di, dj. rewrite duplicates_spec. tauto. }
    unfold deduplicate_ocr, loc. fold s. rewrite Hk. reflexivity.
  - intros a b t Htext Hiou.
    assert (Hab : duplicates t a b = true) by (apply duplicates_spec; tauto).
    assert (Hba : duplicates t b a = true) by (now rewrite duplicates_sym).
    unfold deduplicate_ocr. rewrite sort_values_pair.
    destruct (Qle_bool (confidence (cells b)) (confidence (cells a))) eqn:E;
      rewrite nms_pair.
    + rewrite Hab. exists a. apply Qle_bool_iff in E.
      repeat split; auto. apply Qle_refl.
    + rewrite Hba. exists b.
      assert (confidence (cells a) < confidence (cells b))%Q.
      { apply Qnot_le_lt. rewrite <- Qle_bool_iff, E. discriminate. }
      repeat split; auto; unfold conf_ge;
        [apply Qlt_le_weak; assumption | apply Qle_refl].
  - intros a b t Htext.
    assert (Hab : duplicates t a b = false).
    { apply not_true_iff_false. rewrite duplicates_spec. tauto. }
    assert (Hba : duplicates t b a = false) by (now rewrite duplicates_sym).
    assert (Heq : deduplicate_ocr [a; b] t = sort_values [a; b]).
    { unfold deduplicate_ocr. rewrite sort_values_pair.
      destruct (Qle_bool _ _); rewrite nms_pair; [now rewrite Hab | now rewrite Hba]. }
    split; [exact Heq |]. rewrite Heq. apply sort_values_perm.
Qed.

Lemma deduplicate_ocr_greedy_witness :
  let a := mkDetection (mkRow " Abc " (9 # 10) 0 0 (1 # 2) (1 # 2)) 0 in
  let b := mkDetection (mkRow "abc" (8 # 10) 0 0 (1 # 2) (6 # 10)) 1 in
  let c := mkDetection (mkRow "xyz" (7 # 10) 0 0 (1 # 2) (1 # 2)) 2 in
  (exists d, deduplicate_ocr [a; b] (6 # 10) = [d] /\ (d = a \/ d = b) /\
             conf_ge d a /\ conf_ge d b) /\
  (deduplicate_ocr [a; c] (6 # 10) = sort_values [a; c] /\
   Permutation (deduplicate_ocr [a; c] (6 # 10)) [a; c]).
Proof.
  intros a b c.
  destruct deduplicate_ocr_greedy as (_ & Hdup & Hdiff).
  split.
  - apply Hdup; [reflexivity | discriminate].
  - apply Hdiff. discriminate.
Defined.

End DedupFacts.

(** ** The progress monad *)

Section MonadFacts.

Lemma outcome_bind {A B} (m : M A) (k : A -> M B) :
  outcome (m ≫= k)
  = match outcome m with Ok a => outcome (k a) | Raise e => Raise e end.
Proof. unfold mbind, M_bind. destruct (outcome m); reflexivity. Qed.

Lemma log_bind {A B} (m : M A) (k : A -> M B) :
  log (m ≫= k)
  = match outcome m with Ok a => log m ++ log (k a) | Raise _ => log m end.
Proof. unfold mbind, M_bind. destruct (outcome m); reflexivity. Qed.

Lemma outcome_bind_ok {A B} (m : M A) (k : A -> M B) (b : B) :
  outcome (m ≫= k) = Ok b ->
  exists a, outcome m = Ok a /\ outcome (k a) = Ok b.
Proof.
  rewrite outcome_bind. destruct (outcome m) as [a | e]; [eauto | discriminate].
Qed.

Lemma raises_bind {A B} (m : M A) (k : A -> M B) :
  (forall a, outcome m = Ok a -> raises (k a)) -> raises (m ≫= k).
Proof.
  intros H. unfold raises. rewrite outcome_bind.
  destruct (outcome m) as [a | e]; [now apply H | eauto].
Qed.

Lemma raises_bind_l {A B} (m : M A) (k : A -> M B) :
  raises m -> raises (m ≫= k).
Proof.
  intros [e He]. apply raises_bind. intros a Ha. congruence.
Qed.

Lemma for_each_raises {A S} (body : S -> A -> M S) (l : list A) (a : A) :
  In a l -> (forall s, raises (body s a)) ->
  forall s, raises (for_each body l s).
Proof.
  intros Hin Hbody. induction l as [| x l IH]; [destruct Hin |].
  intros s. simpl. destruct Hin as [-> | Hin].
  - apply raises_bind_l, Hbody.
  - apply raises_bind. intros s' _. now apply IH.
Qed.

End MonadFacts.

(** ** The orchestrator *)

Section OrchestratorFacts.
Import Detection Tiler Orchestrator.

Lemma ocr_batches_yields P from_image batch_size total cb batches results n out :
  detector_yields P from_image ->
  Forall P results ->
  outcome (ocr_batches from_image batch_size total cb batches results n) = Ok out ->
  Forall P out.
Proof.
  intros Hd. revert results n.
  induction batches as [| batch rest IH]; intros results n Hres Hout; simpl in Hout.
  - injection Hout as <-. exact Hres.
  - destruct (len batch =? 0)%Z; [injection Hout as <-; exact Hres |].
    apply outcome_bind_ok in Hout as (o & Ho & Hout).
    apply outcome_bind_ok in Hout as (u & _ & Hout).
    apply IH in Hout; [exact Hout |].
    apply Forall_app. split; [exact Hres |]. eapply Hd. exact Ho.
Qed.

Lemma result_bind_ok {A B} (r : result A) (k : A -> result B) (b : B) :
  r ≫= k = Ok b -> exists a, r = Ok a /\ k a = Ok b.
Proof. destruct r as [a | e]; [eauto | discriminate]. Qed.

Lemma assemble_blank full_w full_h tiles results idxs acc all :
  Forall is_blank results ->
  for_each (assemble_step full_w full_h tiles results) idxs acc = Ok all ->
  all = acc.
Proof.
  intros Hb. revert acc.
  induction idxs as [| i idxs IH]; intros acc H; simpl in H.
  - now injection H as <-.
  - apply result_bind_ok in H as (acc' & Hstep & H).
    apply IH in H. subst all.
    unfold assemble_step in Hstep.
    destruct (results !! i) as [r |] eqn:Er; [| discriminate].
    destruct (tiles !! i) as [t |]; [| discriminate].
    assert (Hr : is_blank r).
    { apply list_elem_of_lookup_2 in Er.
      rewrite Forall_forall in Hb. apply Hb. exact Er. }
    destruct Hr as [-> | ->]; now injection Hstep as <-.
Qed.

(** ** C9, for one page *)

Lemma tile_ocr_blank_raises full_h full_w from_image batch_size cb :
  detector_yields is_blank from_image ->
  raises (tile_ocr full_h full_w from_image batch_size cb).
Proof.
  intros Hd. unfold tile_ocr.
  apply raises_bind; intros tiles _.
  apply raises_bind; intros _ _.
  apply raises_bind; intros batches _.
  apply raises_bind; intros results Hres.
  apply raises_bind; intros _ _.
  apply raises_bind; intros all_dfs Hall.
  apply raises_bind_l.
  apply (ocr_batches_yields is_blank) in Hres; [| exact Hd | constructor].
  simpl in Hall. apply (assemble_blank _ _ _ _ _ _ _ Hres) in Hall. subst all_dfs.
  eexists. reflexivity.
Qed.


(** *** The shape of the tiles and of the table *)

Lemma slice_len_nonneg a b n : (0 <= slice_len a b n)%Z.
Proof. unfold slice_len. lia. Qed.

Lemma crop_step_dims h w ts y st x :
  Forall (fun t => (0 < tile_h t /\ 0 < tile_w t)%Z) st.1 ->
  Forall (fun t => (0 < tile_h t /\ 0 < tile_w t)%Z) (crop_step h w ts y st x).1.
Proof.
  destruct st as [tiles tid]. unfold crop_step. intros H.
  destruct (Z.eqb_spec (slice_len y (y + ts) h * slice_len x (x + ts) w) 0);
    [exact H |].
  simpl. apply Forall_app. split; [exact H |].
  constructor; [| constructor]. simpl.
  pose proof (slice_len_nonneg y (y + ts) h).
  pose proof (slice_len_nonneg x (x + ts) w). nia.
Qed.

Lemma crop_tiles_dims h w ts ov tiles :
  crop_tiles h w ts ov = Ok tiles ->
  Forall (fun t => (0 < tile_h t /\ 0 < tile_w t)%Z) tiles.
Proof.
  unfold crop_tiles. intros H.
  apply result_bind_ok in H as (ys & _ & H).
  apply result_bind_ok in H as (xs & _ & H).
  injection H as <-.
  assert (Hgen : forall st,
    Forall (fun t => (0 < tile_h t /\ 0 < tile_w t)%Z) st.1 ->
    Forall (fun t => (0 < tile_h t /\ 0 < tile_w t)%Z)
      (fold_left (fun st y => fold_left (crop_step h w ts y) xs st) ys st).1).
  { induction ys as [| y ys IH]; intros st Hst; simpl; [exact Hst |].
    apply IH. clear IH. revert st Hst.
    induction xs as [| x xs IHx]; intros st Hst; simpl; [exact Hst |].
    apply IHx. now apply crop_step_dims. }
  apply Hgen. constructor.
Qed.

Lemma crop_tiles_empty_image h w ts ov tiles :
  (0 < ts - ov)%Z -> (h <= 0 \/ w <= 0)%Z ->
  crop_tiles h w ts ov = Ok tiles -> tiles = [].
Proof.
  intros Hs Hhw. unfold crop_tiles. rewrite !range_ok by lia.
  cbn [mbind result_bind]. intros H. injection H as <-.
  unfold Py.range_len.
  destruct (Z.ltb_spec 0 (ts - ov)); [| lia].
  destruct Hhw as [Hh | Hw].
  - destruct (Z.ltb_spec 0 h); [lia |]. reflexivity.
  - destruct (Z.ltb_spec 0 w); [lia |]. simpl.
    generalize (map (fun k : nat => (0 + Z.of_nat k * (ts - ov))%Z)
                    (seq 0 (Z.to_nat (if (0 <? h)%Z
                                      then ((h - 0 - 1) / (ts - ov) + 1)%Z
                                      else 0%Z)))).
    intros ys. induction ys as [| y ys IH]; [reflexivity | exact IH].
Qed.

Lemma project_table_well_formed rows x_offset y_offset tw th full_w full_h tid :
  (0 <= tw)%Z -> (0 <= th)%Z -> (0 < full_w)%Z -> (0 < full_h)%Z ->
  Forall well_formed_row rows ->
  Forall well_formed_detection
    (Projector.project_tile_df_to_global rows x_offset y_offset tw th
                                         full_w full_h tid).
Proof.
  intros Htw Hth Hfw Hfh Hr. unfold Projector.project_tile_df_to_global.
  apply List.Forall_map. eapply Forall_impl; [exact Hr |].
  intros r Hwf. now apply project_row_well_formed.
Qed.

Lemma assemble_well_formed full_w full_h tiles results idxs acc all :
  (0 < full_w)%Z -> (0 < full_h)%Z ->
  Forall (fun t => (0 < tile_h t /\ 0 < tile_w t)%Z) tiles ->
  Forall rows_well_formed results ->
  Forall (Forall well_formed_detection) acc ->
  for_each (assemble_step full_w full_h tiles results) idxs acc = Ok all ->
  Forall (Forall well_formed_detection) all.
Proof.
  intros Hfw Hfh Ht Hr. revert acc.
  induction idxs as [| i idxs IH]; intros acc Hacc H; simpl in H.
  - now injection H as <-.
  - apply result_bind_ok in H as (acc' & Hstep & H).
    apply IH in H; [exact H |]. clear IH H.
    unfold assemble_step in Hstep.
    destruct (results !! i) as [r |] eqn:Er; [| discriminate].
    destruct (tiles !! i) as [t |] eqn:Et; [| discriminate].
    destruct r as [[| r0 rows] |]; try (injection Hstep as <-; exact Hacc).
    injection Hstep as <-. apply Forall_app. split; [exact Hacc |].
    constructor; [| constructor].
    apply list_elem_of_lookup_2 in Er, Et.
    rewrite Forall_forall in Hr. rewrite Forall_forall in Ht.
    specialize (Hr _ Er _ eq_refl). destruct (Ht _ Et) as [Hth Htw].
    apply (project_table_well_formed (r0 :: rows)); (lia || assumption).
Qed.

Lemma deduplicate_ocr_Forall (P : detection -> Prop) df t :
  Forall P df -> Forall P (Dedup.deduplicate_ocr df t).
Proof.
  intros H. rewrite Forall_forall. intros d Hd.
  unfold Dedup.deduplicate_ocr, Dedup.loc in Hd.
  apply list_elem_of_omap in Hd as (i & _ & Hi).
  apply list_elem_of_lookup_2 in Hi.
  rewrite (sort_values_perm df) in Hi.
  rewrite Forall_forall in H. now apply H.
Qed.

Lemma word_idx_dense k df :
  word_idx <$> imap (fun i d => mkWord d (Z.of_nat (k + i))) df
  = Z.of_nat <$> seq k (length df).
Proof.
  revert k. induction df as [| d df IH]; intros k; [reflexivity |].
  simpl. rewrite Nat.add_0_r. f_equal.
  rewrite <- IH. f_equal. apply imap_ext. intros i x _. simpl.
  f_equal. lia.
Qed.

(** ** C8 *)

(** C8. When the detector's rows have well-formed tile-normalised boxes,
    every row of the table [tile_ocr] returns has a well-formed box and
    carries its own position as [word_idx]; the [word_idx] values are
    therefore pairwise distinct.  (Tiles that are emitted have positive
    dimensions and a page that yields a table has positive dimensions, so
    neither is an assumption.) *)
Theorem tile_ocr_table_well_formed
    (full_h full_w : Z) (from_image : detector) (batch_size : Z)
    (cb : option (Z -> Z -> M unit)) (words : list word) :
  detector_yields rows_well_formed from_image ->
  outcome (tile_ocr full_h full_w from_image batch_size cb) = Ok words ->
  (forall (i : nat) (wd : word),
      words !! i = Some wd ->
      well_formed_row (cells (det wd)) /\ word_idx wd = Z.of_nat i) /\
  NoDup (word_idx <$> words).
Proof.
  intros Hd H. unfold tile_ocr in H.
  apply outcome_bind_ok in H as (tiles & Htiles & H).
  apply outcome_bind_ok in H as (u1 & _ & H).
  apply outcome_bind_ok in H as (batches & _ & H).
  apply outcome_bind_ok in H as (results & Hres & H).
  apply outcome_bind_ok in H as (u2 & _ & H).
  apply outcome_bind_ok in H as (all_dfs & Hall & H).
  apply outcome_bind_ok in H as (df & Hdf & H).
  simpl in Htiles, Hall, Hdf, H. injection H as <-.
  apply (ocr_batches_yields rows_well_formed) in Hres; [| exact Hd | constructor].
  assert (Hne : all_dfs <> []) by (intros ->; discriminate).
  assert (Hpos : (0 < full_h /\ 0 < full_w)%Z).
  { destruct (Z.lt_ge_cases 0 full_h), (Z.lt_ge_cases 0 full_w); try lia;
      (apply crop_tiles_empty_image in Htiles;
        [| unfold Config.TILE_SIZE, Config.TILE_OVERLAP; lia | lia]);
      subst tiles; simpl in Hall; injection Hall as <-; contradiction. }
  apply (assemble_well_formed full_w full_h) in Hall;
    [| lia | lia | eapply crop_tiles_dims; exact Htiles | exact Hres | constructor].
  assert (Hfinal : Forall well_formed_detection
                     (Dedup.deduplicate_ocr df (6 # 10))).
  { apply deduplicate_ocr_Forall.
    destruct all_dfs as [| l ls]; [contradiction |]. injection Hdf as <-.
    apply (proj2 (Forall_concat _ (l :: ls))). exact Hall. }
  split.
  - intros i wd Hwd. unfold with_word_idx in Hwd.
    rewrite list_lookup_imap in Hwd.
    destruct (Dedup.deduplicate_ocr df (6 # 10) !! i) as [d |] eqn:Ed;
      [| discriminate].
    injection Hwd as <-. simpl. split; [| reflexivity].
    apply list_elem_of_lookup_2 in Ed.
    rewrite Forall_forall in Hfinal. now apply Hfinal.
  - unfold with_word_idx.
    rewrite (word_idx_dense 0).
    apply NoDup_fmap; [apply _ | apply NoDup_seq].
Qed.

Lemma tile_ocr_table_well_formed_witness :
  let from_image : detector :=
    fun batch =>
      Ok (map (fun _ => Some [mkRow "12" (9 # 10) (1 # 10) (1 # 10)
                                    (2 # 10) (3 # 10)]) batch) in
  exists words,
    outcome (tile_ocr 10 10 from_image 24 None) = Ok words /\
    (forall (i : nat) (wd : word),
        words !! i = Some wd ->
        well_formed_row (cells (det wd)) /\ word_idx wd = Z.of_nat i) /\
    NoDup (word_idx <$> words).
Proof.
  intros from_image. eexists. split; [vm_compute; reflexivity |].
  apply (tile_ocr_table_well_formed 10 10 from_image 24 None).
  - intros batch out H. injection H as <-.
    apply List.Forall_map, Forall_forall. intros t _ rows Hrows.
    injection Hrows as <-. repeat constructor; discriminate.
  - vm_compute. reflexivity.
Defined.

End OrchestratorFacts.

(** ** Progress arithmetic *)

Section ProgressFacts.
Import ProcessingService.
Local Open Scope Z_scope.

Lemma int_floor (q : Q) : (0 <= q)%Q -> Py.int q = Qfloor q.
Proof.
  destruct q as [n d]. unfold Qle, Py.int, Qfloor. simpl. intros H.
  apply Z.quot_div_nonneg; lia.
Qed.

Lemma int_mono (p q : Q) : (0 <= p)%Q -> (p <= q)%Q -> Py.int p <= Py.int q.
Proof.
  intros Hp Hpq. rewrite !int_floor by (try assumption; eapply Qle_trans; eassumption).
  now apply Qfloor_resp_le.
Qed.

Lemma int_nonneg (q : Q) : (0 <= q)%Q -> 0 <= Py.int q.
Proof.
  intros Hq. change 0 with (Py.int 0%Q). apply int_mono; [apply Qle_refl | exact Hq].
Qed.

Lemma int_inject (n : Z) : 0 <= n -> Py.int (inject_Z n) = n.
Proof.
  intros Hn. rewrite int_floor by (rewrite <- (Zle_Qle 0); exact Hn).
  apply Qfloor_Z.
Qed.

Lemma int_eq (p q : Q) : (0 <= p)%Q -> (p == q)%Q -> Py.int p = Py.int q.
Proof.
  intros Hp E. rewrite !int_floor by (try rewrite <- E; exact Hp).
  now rewrite E.
Qed.

Lemma inject_nonneg (n : Z) : 0 <= n -> (0 <= inject_Z n)%Q.
Proof. intros H. rewrite <- (Zle_Qle 0). exact H. Qed.

Lemma frac_nonneg (a b : Z) : 0 <= a -> 0 <= b -> (0 <= inject_Z a / inject_Z b)%Q.
Proof.
  intros Ha Hb. unfold Qdiv. apply Qmult_le_0_compat.
  - now apply inject_nonneg.
  - apply Qinv_le_0_compat. now apply inject_nonneg.
Qed.

Lemma frac_mono (a a' b : Z) :
  a <= a' -> 0 <= b -> (inject_Z a / inject_Z b <= inject_Z a' / inject_Z b)%Q.
Proof.
  intros Ha Hb. unfold Qdiv. apply Qmult_le_compat_r.
  - rewrite <- Zle_Qle. exact Ha.
  - apply Qinv_le_0_compat. now apply inject_nonneg.
Qed.

Lemma frac_le_1 (a b : Z) : 0 <= a <= b -> (inject_Z a / inject_Z b <= 1)%Q.
Proof.
  intros [Ha Hab]. destruct (Z.eq_dec b 0) as [-> | Hb].
  - assert (a = 0) as -> by lia. discriminate.
  - apply Qle_shift_div_r.
    + rewrite <- (Zlt_Qlt 0). lia.
    + rewrite Qmult_1_l, <- Zle_Qle. exact Hab.
Qed.

(** A fraction of a band, truncated, stays inside the band and grows
    with the fraction. *)
Lemma band_mono (p q : Q) (width : Z) :
  (0 <= p)%Q -> (p <= q)%Q -> 0 <= width ->
  Py.int (p * inject_Z width) <= Py.int (q * inject_Z width).
Proof.
  intros Hp Hpq Hw. apply inject_nonneg in Hw. apply int_mono.
  - now apply Qmult_le_0_compat.
  - now apply Qmult_le_compat_r.
Qed.

Lemma band_bounds (p : Q) (width : Z) :
  (0 <= p)%Q -> (p <= 1)%Q -> 0 <= width ->
  0 <= Py.int (p * inject_Z width) <= width.
Proof.
  intros Hp Hp1 Hw. split.
  - apply int_nonneg, Qmult_le_0_compat; [exact Hp | now apply inject_nonneg].
  - rewrite <- (int_inject width Hw) at 2.
    rewrite <- (int_eq (1 * inject_Z width) (inject_Z width)).
    + now apply band_mono.
    + apply Qmult_le_0_compat; [discriminate | now apply inject_nonneg].
    + apply Qmult_1_l.
Qed.

Lemma page_progress_mono (total a b : Z) :
  0 <= total -> 0 <= a <= b ->
  page_progress total a <= page_progress total b.
Proof.
  intros Ht [Ha Hab]. unfold page_progress.
  apply Z.add_le_mono_l. apply int_mono.
  - apply Qmult_le_0_compat; [apply frac_nonneg; lia | discriminate].
  - apply Qmult_le_compat_r; [apply frac_mono; lia | discriminate].
Qed.

Lemma page_progress_first (total : Z) : page_progress total 0 = 5.
Proof.
  unfold page_progress.
  rewrite (int_eq _ 0%Q); [reflexivity | |].
  - apply Qmult_le_0_compat; [| discriminate].
    unfold Qdiv. rewrite Qmult_0_l. apply Qle_refl.
  - unfold Qdiv. rewrite !Qmult_0_l. reflexivity.
Qed.

Lemma page_progress_last (total : Z) : 0 < total -> page_progress total total = 90.
Proof.
  intros Ht. unfold page_progress.
  rewrite (int_eq _ (inject_Z 85)).
  - rewrite int_inject by lia. reflexivity.
  - apply Qmult_le_0_compat; [apply frac_nonneg; lia | discriminate].
  - assert (~ (inject_Z total == 0)%Q) by (apply inject_Z_nonzero; lia).
    change (inject_Z 85) with 85%Q. field. assumption.
Qed.

End ProgressFacts.

(** ** Progress of a run *)

Section ClimbFacts.
Import Detection Tiler Orchestrator ProcessingService.
Local Open Scope Z_scope.

Lemma sorted_app (l1 l2 : list Z) (b : Z) :
  StronglySorted Z.le l1 -> Forall (fun v => v <= b) l1 ->
  StronglySorted Z.le l2 -> Forall (fun v => b <= v) l2 ->
  StronglySorted Z.le (l1 ++ l2).
Proof.
  intros H1 Hb1 H2 Hb2. induction H1 as [| x l1 Hs IH Hx]; [exact H2 |].
  simpl. constructor.
  - apply IH. now inversion Hb1.
  - apply Forall_app. split; [exact Hx |].
    inversion Hb1; subst. eapply Forall_impl; [exact Hb2 |].
    intros y Hy. simpl in Hy. lia.
Qed.

Lemma climbs_silent {A} (lo hi : Z) (m : M A) : log m = [] -> climbs lo hi m.
Proof. intros E. unfold climbs. rewrite E. split; constructor. Qed.

Lemma climbs_bind {A B} (lo mid hi : Z) (m : M A) (k : A -> M B) :
  lo <= mid <= hi ->
  climbs lo mid m ->
  (forall a, outcome m = Ok a -> climbs mid hi (k a)) ->
  climbs lo hi (m ≫= k).
Proof.
  intros Hb [Hs Hf] Hk. unfold climbs. rewrite log_bind.
  destruct (outcome m) as [a | e].
  - destruct (Hk a eq_refl) as [Hs' Hf']. split.
    + apply (sorted_app _ _ mid); try assumption.
      * eapply Forall_impl; [exact Hf |]. intros v Hv. simpl in Hv. lia.
      * eapply Forall_impl; [exact Hf' |]. intros v Hv. simpl in Hv. lia.
    + apply Forall_app. split; (eapply Forall_impl; [eassumption |]);
        intros v Hv; simpl in Hv; lia.
  - split; [exact Hs |]. eapply Forall_impl; [exact Hf |].
    intros v Hv. simpl in Hv. lia.
Qed.

Lemma climbs_notify (lo hi : Z) (cb : bool) (p : Z) :
  lo <= p <= hi -> climbs lo hi (ProcessingService.notify cb p).
Proof.
  intros Hp. destruct cb; simpl; [| now apply climbs_silent].
  split; repeat constructor; lia.
Qed.

(** The value [ocr_progress] reports for [current] of [total] tiles. *)
Local Abbreviation ocr_value start width current total :=
  (start + Py.int (inject_Z current / inject_Z total * (7 # 10)
                   * inject_Z width)%Q).

Lemma ocr_value_mono start width total c c' :
  0 <= width -> 0 <= total -> 0 <= c <= c' ->
  ocr_value start width c total <= ocr_value start width c' total.
Proof.
  intros Hw Ht Hc. apply Z.add_le_mono_l. apply band_mono; [| | exact Hw].
  - apply Qmult_le_0_compat; [apply frac_nonneg; lia | discriminate].
  - apply Qmult_le_compat_r; [apply frac_mono; lia | discriminate].
Qed.

Lemma ocr_value_first start width total :
  ocr_value start width 0 total = start.
Proof.
  rewrite (int_eq _ 0%Q); [apply Z.add_0_r | |].
  - unfold Qdiv. rewrite !Qmult_0_l. apply Qle_refl.
  - unfold Qdiv. rewrite !Qmult_0_l. reflexivity.
Qed.

Lemma ocr_value_last start width total c :
  0 <= width -> 0 <= c <= total ->
  ocr_value start width c total
  <= start + Py.int ((7 # 10) * inject_Z width)%Q.
Proof.
  intros Hw Hc. apply Z.add_le_mono_l. apply band_mono; [| | exact Hw].
  - apply Qmult_le_0_compat; [apply frac_nonneg; lia | discriminate].
  - rewrite <- (Qmult_1_l (7 # 10)) at 2.
    apply Qmult_le_compat_r; [now apply frac_le_1 | discriminate].
Qed.

Lemma climbs_ocr_progress lo hi cb start width current total :
  lo <= ocr_value start width current total <= hi ->
  climbs lo hi (ocr_progress cb start width current total).
Proof.
  intros Hb. unfold ocr_progress.
  destruct (cb && (0 <? total)); [| now apply climbs_silent].
  split; repeat constructor; lia.
Qed.

Lemma climbs_ocr_batches from_image batch_size total cb start width
    batches results n :
  0 <= width -> 0 <= batch_size -> 0 <= n -> 0 <= total ->
  climbs (ocr_value start width (Z.min (n * batch_size) total) total)
         (ocr_value start width total total)
         (ocr_batches from_image batch_size total
                      (Some (ocr_progress cb start width)) batches results n).
Proof.
  intros Hw Hbs Hn Ht. revert results n Hn.
  induction batches as [| batch rest IH]; intros results n Hn; simpl.
  - now apply climbs_silent.
  - destruct (len batch =? 0); [now apply climbs_silent |].
    assert (Hstep : ocr_value start width (Z.min (n * batch_size) total) total
                    <= ocr_value start width
                         (Z.min ((n + 1) * batch_size) total) total)
      by (apply ocr_value_mono; nia).
    assert (Hend : ocr_value start width
                     (Z.min ((n + 1) * batch_size) total) total
                   <= ocr_value start width total total)
      by (apply ocr_value_mono; nia).
    eapply (climbs_bind _ (ocr_value start width (Z.min (n * batch_size) total) total));
      [lia | now apply climbs_silent |].
    intros out _.
    eapply (climbs_bind _ (ocr_value start width
                                     (Z.min ((n + 1) * batch_size) total) total));
      [lia | apply climbs_ocr_progress; lia |].
    intros _ _. apply IH. lia.
Qed.

(** Everything [tile_ocr] reports through [ocr_progress] lies in the
    first 70% of the page's band, in non-decreasing order. *)
Lemma climbs_tile_ocr full_h full_w from_image batch_size cb start width :
  0 <= width -> 0 <= batch_size ->
  climbs start (start + Py.int ((7 # 10) * inject_Z width)%Q)
         (tile_ocr full_h full_w from_image batch_size
                   (Some (ocr_progress cb start width))).
Proof.
  intros Hw Hbs. unfold tile_ocr.
  set (top := start + Py.int ((7 # 10) * inject_Z width)%Q).
  assert (Htop : start <= top).
  { unfold top. pose proof (band_bounds (7 # 10) width). 
    assert (0 <= Py.int ((7 # 10) * inject_Z width)%Q)
      by (apply H; (discriminate || lia)). lia. }
  eapply (climbs_bind _ start); [lia | now apply climbs_silent |].
  intros tiles _.
  assert (Htot : 0 <= len tiles) by (unfold len; lia).
  pose proof (ocr_value_first start width (len tiles)) as Hfirst.
  pose proof (ocr_value_last start width (len tiles) (len tiles) Hw
                ltac:(lia)) as Hlast. fold top in Hlast.
  pose proof (ocr_value_mono start width (len tiles) 0 (len tiles) Hw Htot
                ltac:(lia)) as Hmono.
  eapply (climbs_bind _ start); [lia | apply climbs_ocr_progress; lia |].
  intros _ _.
  eapply (climbs_bind _ start); [lia | now apply climbs_silent |].
  intros batches _.
  eapply (climbs_bind _ (ocr_value start width (len tiles) (len tiles)));
    [lia | |].
  { pose proof (climbs_ocr_batches from_image batch_size (len tiles) cb
                  start width batches [] 0 Hw Hbs ltac:(lia) Htot) as Hc.
    rewrite Z.mul_0_l, Z.min_l in Hc by lia.
    destruct Hc as [Hs Hf]. split; [exact Hs |].
    eapply Forall_impl; [exact Hf |]. intros v Hv. simpl in Hv. lia. }
  intros results _.
  eapply (climbs_bind _ top); [lia | apply climbs_ocr_progress; lia |].
  intros _ _.
  eapply (climbs_bind _ top); [lia | now apply climbs_silent |].
  intros all_dfs _.
  eapply (climbs_bind _ top); [lia | now apply climbs_silent |].
  intros df _. now apply climbs_silent.
Qed.


Lemma climbs_process_page storage job_id cb total st page_num image :
  0 < total -> 0 <= page_num ->
  climbs (page_progress total page_num) (page_progress total (page_num + 1))
         (process_page storage job_id cb total st (page_num, image)).
Proof.
  intros Ht Hn. unfold process_page.
  destruct st as [all_excel_data results]. destruct (shape image) as [full_h full_w].
  set (start := page_progress total page_num).
  set (stop := page_progress total (page_num + 1)).
  set (width := stop - start).
  assert (Hw : 0 <= width).
  { unfold width, start, stop.
    pose proof (page_progress_mono total page_num (page_num + 1)). lia. }
  assert (B70 := band_bounds (7 # 10) width ltac:(discriminate) ltac:(discriminate) Hw).
  assert (B75 := band_bounds (3 # 4) width ltac:(discriminate) ltac:(discriminate) Hw).
  assert (B85 := band_bounds (17 # 20) width ltac:(discriminate) ltac:(discriminate) Hw).
  assert (B95 := band_bounds (19 # 20) width ltac:(discriminate) ltac:(discriminate) Hw).
  assert (M1 := band_mono (7 # 10) (3 # 4) width ltac:(discriminate) ltac:(discriminate) Hw).
  assert (M2 := band_mono (3 # 4) (17 # 20) width ltac:(discriminate) ltac:(discriminate) Hw).
  assert (M3 := band_mono (17 # 20) (19 # 20) width ltac:(discriminate) ltac:(discriminate) Hw).
  assert (Hstop : stop = start + width) by (unfold width; lia).
  eapply (climbs_bind _ start); [lia | apply climbs_notify; lia |].
  intros _ _.
  eapply (climbs_bind _ (start + Py.int ((7 # 10) * inject_Z width)%Q));
    [lia | apply climbs_tile_ocr; [exact Hw | discriminate] |].
  intros df_ocr _.
  eapply (climbs_bind _ (start + Py.int ((3 # 4) * inject_Z width)%Q));
    [lia | apply climbs_notify; lia |].
  intros _ _.
  eapply (climbs_bind _ (start + Py.int ((3 # 4) * inject_Z width)%Q));
    [lia | now apply climbs_silent |].
  intros excel_data _.
  eapply (climbs_bind _ (start + Py.int ((17 # 20) * inject_Z width)%Q));
    [lia | apply climbs_notify; lia |].
  intros _ _.
  eapply (climbs_bind _ (start + Py.int ((19 # 20) * inject_Z width)%Q));
    [lia | |].
  { destruct (storage_for storage job_id) as [[s j] |];
      [| now apply climbs_silent].
    eapply (climbs_bind _ (start + Py.int ((19 # 20) * inject_Z width)%Q));
      [lia | apply climbs_notify; lia |].
    intros _ _.
    eapply (climbs_bind _ (start + Py.int ((19 # 20) * inject_Z width)%Q));
      [lia | now apply climbs_silent |].
    intros url _. now apply climbs_silent. }
  intros image_url _.
  eapply (climbs_bind _ stop); [lia | apply climbs_notify; lia |].
  intros _ _. now apply climbs_silent.
Qed.

Lemma climbs_pages storage job_id cb (total : nat) pages (i : nat) st :
  (i + length pages = total)%nat ->
  climbs (page_progress (Z.of_nat total) (Z.of_nat i)) 90
         (for_each (process_page storage job_id cb (Z.of_nat total))
                   (imap (fun k a => (Z.of_nat (i + k), a)) pages) st).
Proof.
  revert i st. induction pages as [| p pages IH]; intros i st Hlen.
  - now apply climbs_silent.
  - simpl in Hlen. simpl. rewrite Nat.add_0_r.
    assert (Hnext : page_progress (Z.of_nat total) (Z.of_nat i)
                    <= page_progress (Z.of_nat total) (Z.of_nat i + 1))
      by (apply page_progress_mono; lia).
    assert (Hlast : page_progress (Z.of_nat total) (Z.of_nat i + 1) <= 90).
    { rewrite <- (page_progress_last (Z.of_nat total)) by lia.
      apply page_progress_mono; lia. }
    eapply (climbs_bind _ (page_progress (Z.of_nat total) (Z.of_nat i + 1)));
      [lia | apply climbs_process_page; lia |].
    intros st' _.
    specialize (IH (S i) st' ltac:(lia)).
    rewrite Nat2Z.inj_succ, <- Z.add_1_r in IH.
    erewrite imap_ext; [exact IH |].
    intros k a _. simpl. do 2 f_equal. lia.
Qed.

Lemma climbs_process_pdf_body storage convert_from_path job_id cb :
  climbs 0 100 (process_pdf_body storage convert_from_path job_id cb).
Proof.
  unfold process_pdf_body.
  eapply (climbs_bind _ 0); [lia | apply climbs_notify; lia |].
  intros _ _.
  eapply (climbs_bind _ 0); [lia | now apply climbs_silent |].
  intros images _.
  eapply (climbs_bind _ 5); [lia | apply climbs_notify; lia |].
  intros _ _.
  eapply (climbs_bind _ 90); [lia | |].
  { pose proof (climbs_pages storage job_id cb (length images) images 0 ([], [])
                  eq_refl) as Hc.
    rewrite page_progress_first in Hc. exact Hc. }
  intros [all_excel_data results] _.
  eapply (climbs_bind _ 92); [lia | apply climbs_notify; lia |].
  intros _ _.
  eapply (climbs_bind _ 92); [lia | now apply climbs_silent |].
  intros consolidated_excel _.
  eapply (climbs_bind _ 95); [lia | |].
  { destruct (storage_for storage job_id) as [[s j] |];
      [| now apply climbs_silent].
    eapply (climbs_bind _ 95); [lia | apply climbs_notify; lia |].
    intros _ _.
    eapply (climbs_bind _ 95); [lia | now apply climbs_silent |].
    intros path _. now apply climbs_silent. }
  intros excel_path _.
  eapply (climbs_bind _ 100); [lia | apply climbs_notify; lia |].
  intros _ _. now apply climbs_silent.
Qed.

Lemma ends_with_bind {A B} (v : Z) (m : M A) (k : A -> M B) :
  (forall a, outcome m = Ok a -> ends_with v (k a)) -> ends_with v (m ≫= k).
Proof.
  intros Hk b Hb. apply outcome_bind_ok in Hb as (a & Ha & Hb).
  rewrite log_bind, Ha, last_app, (Hk a Ha b Hb). reflexivity.
Qed.

Lemma process_pdf_body_ends_with_100 storage convert_from_path job_id :
  ends_with 100 (process_pdf_body storage convert_from_path job_id true).
Proof.
  unfold process_pdf_body.
  apply ends_with_bind; intros _ _.
  apply ends_with_bind; intros images _.
  apply ends_with_bind; intros _ _.
  apply ends_with_bind; intros [all_excel_data results] _.
  apply ends_with_bind; intros _ _.
  apply ends_with_bind; intros consolidated_excel _.
  apply ends_with_bind; intros excel_path _.
  intros r _. reflexivity.
Qed.

(** ** C2 *)

(** C2. In every run of [process_pdf] the sequence of values handed to
    the progress callback, including those forwarded from the per-batch
    OCR progress, is non-decreasing and every value lies in [0, 100]; when
    the run succeeds (and a callback is installed) the last value is
    exactly 100. *)
Theorem process_pdf_progress_monotone
    (storage : option storage_service) (convert_from_path : result (list page))
    (job_id : option string) (progress_callback : bool) :
  let run := process_pdf storage convert_from_path job_id progress_callback in
  StronglySorted Z.le run.1 /\
  Forall (fun v => 0 <= v <= 100) run.1 /\
  (forall total_pages total_tendons pages excel_data excel_path,
      run.2 = Success total_pages total_tendons pages excel_data excel_path ->
      progress_callback = true ->
      last run.1 = Some 100).
Proof.
  intros run. unfold run, process_pdf.
  pose proof (climbs_process_pdf_body storage convert_from_path job_id
                progress_callback) as [Hs Hf].
  destruct (outcome (process_pdf_body storage convert_from_path job_id
                                      progress_callback)) as [r | e] eqn:E;
    simpl; (split; [exact Hs |]; split; [exact Hf |]).
  - intros tp tt pages ex path _ ->.
    exact (process_pdf_body_ends_with_100 storage convert_from_path job_id r E).
  - discriminate.
Qed.

(** *** The error a blank page ends in *)

Lemma batches_of_concat {A} (fuel n : nat) (l : list A) :
  (1 <= n)%nat -> (length l <= fuel)%nat ->
  concat (batches_of fuel n l) = l /\
  Forall (fun b => b <> []) (batches_of fuel n l).
Proof.
  intros Hn. revert l. induction fuel as [| fuel IH]; intros l Hl.
  - destruct l; [split; [reflexivity | constructor] | simpl in Hl; lia].
  - destruct l as [| x l]; [split; [reflexivity | constructor] |].
    cbn [batches_of concat].
    destruct (IH (drop n (x :: l))) as [Hc Hf].
    { rewrite length_drop. simpl in *. lia. }
    rewrite Hc, take_drop. split; [reflexivity |].
    constructor; [| exact Hf].
    destruct n; [lia | discriminate].
Qed.

Lemma ocr_batches_returns from_image batch_size total cb batches results n :
  (forall batch, exists out,
      from_image batch = Ok out /\ length out = length batch) ->
  (forall f c t, cb = Some f -> outcome (f c t) = Ok tt) ->
  exists out,
    outcome (ocr_batches from_image batch_size total cb batches results n)
    = Ok out /\
    (Forall (fun b => b <> []) batches ->
     length out = (length results + length (concat batches))%nat).
Proof.
  intros Hd Hcb. revert results n.
  induction batches as [| batch rest IH]; intros results n; simpl.
  - exists results. split; [reflexivity |]. intros _. simpl. lia.
  - destruct (Z.eqb_spec (len batch) 0) as [E | E].
    + exists results. split; [reflexivity |]. intros Hf.
      inversion Hf; subst. destruct batch; [contradiction |].
      unfold len in E. simpl in E. lia.
    + destruct (Hd batch) as (out & Hout & Hlen).
      destruct (IH (results ++ out) (n + 1)) as (rs & Hrs & Hl).
      exists rs. split.
      * rewrite outcome_bind. cbn [lift outcome]. rewrite Hout.
        rewrite outcome_bind.
        assert (Hn : outcome (Orchestrator.notify cb
                                (Z.min ((n + 1) * batch_size) total) total)
                     = Ok tt).
        { destruct cb as [f |]; [now apply Hcb | reflexivity]. }
        rewrite Hn. exact Hrs.
      * intros Hf. inversion Hf; subst. rewrite (Hl H2).
        rewrite !length_app. lia.
Qed.

Lemma assemble_blank_returns full_w full_h tiles results idxs acc :
  Forall is_blank results ->
  Forall (fun i => (i < length tiles)%nat /\ (i < length results)%nat) idxs ->
  for_each (assemble_step full_w full_h tiles results) idxs acc = Ok acc.
Proof.
  intros Hb Hidx. induction Hidx as [| i idxs [Hit Hir] _ IH]; [reflexivity |].
  cbn [for_each].
  destruct (lookup_lt_is_Some_2 _ _ Hit) as [t Ht].
  destruct (lookup_lt_is_Some_2 _ _ Hir) as [r Hr].
  assert (Hblank : is_blank r).
  { apply list_elem_of_lookup_2 in Hr. rewrite Forall_forall in Hb. now apply Hb. }
  assert (Hstep : assemble_step full_w full_h tiles results acc i = Ok acc).
  { unfold assemble_step, tile_result in *. rewrite Hr, Ht. destruct Hblank as [-> | ->]; reflexivity. }
  rewrite Hstep. exact IH.
Qed.

Lemma tile_ocr_blank_error full_h full_w from_image batch_size cb :
  1 <= batch_size ->
  (forall batch, exists out,
      from_image batch = Ok out /\ length out = length batch /\
      Forall is_blank out) ->
  (forall f c t, cb = Some f -> outcome (f c t) = Ok tt) ->
  outcome (tile_ocr full_h full_w from_image batch_size cb)
  = Raise (ValueError "No objects to concatenate").
Proof.
  intros Hbs Hd Hcb.
  assert (Hnotify : forall c t, outcome (Orchestrator.notify cb c t) = Ok tt).
  { intros c t. destruct cb as [f |]; [now apply Hcb | reflexivity]. }
  assert (Hy : detector_yields is_blank from_image).
  { intros batch out Hout. destruct (Hd batch) as (out' & Hout' & _ & Hf).
    congruence. }
  unfold tile_ocr.
  destruct (crop_tiles full_h full_w Config.TILE_SIZE Config.TILE_OVERLAP)
    as [tiles | e] eqn:Etiles; [| discriminate].
  rewrite outcome_bind. cbn [lift outcome].
  rewrite outcome_bind, Hnotify.
  rewrite outcome_bind. unfold batched.
  destruct (Z.ltb_spec batch_size 1); [lia |]. cbn [lift outcome].
  destruct (batches_of_concat (length tiles) (Z.to_nat batch_size) tiles
              ltac:(lia) (le_n _)) as [Hconcat Hne].
  destruct (ocr_batches_returns from_image batch_size (len tiles) cb
              (batches_of (length tiles) (Z.to_nat batch_size) tiles) [] 0)
    as (results & Hres & Hlen); [| exact Hcb |].
  { intros batch. destruct (Hd batch) as (out & ? & ? & _). eauto. }
  specialize (Hlen Hne). rewrite Hconcat in Hlen. simpl in Hlen.
  rewrite outcome_bind, Hres, outcome_bind, Hnotify, outcome_bind.
  cbn [lift outcome].
  rewrite assemble_blank_returns.
  - reflexivity.
  - eapply ocr_batches_yields; [exact Hy | constructor | exact Hres].
  - apply Forall_forall. intros i Hi. apply list_elem_of_In, in_seq in Hi. lia.
Qed.

(** ** C9 *)

(** C9. When every result the detector returns for a page is [None] or
    an empty table, [tile_ocr] raises instead of returning an empty
    table; when the detector answers each batch with one such result per
    tile, the exception is the [ValueError] of concatenating zero tables.
    A document containing such a page makes [process_pdf] return a
    failure. *)
Theorem blank_page_fails_the_document :
  (forall full_h full_w from_image batch_size cb,
      detector_yields is_blank from_image ->
      raises (tile_ocr full_h full_w from_image batch_size cb)) /\
  (forall full_h full_w from_image batch_size cb,
      1 <= batch_size ->
      (forall batch, exists out,
          from_image batch = Ok out /\ length out = length batch /\
          Forall is_blank out) ->
      (forall f c t, cb = Some f -> outcome (f c t) = Ok tt) ->
      outcome (tile_ocr full_h full_w from_image batch_size cb)
      = Raise (ValueError "No objects to concatenate")) /\
  (forall storage pages job_id progress_callback p,
      In p pages ->
      detector_yields is_blank (from_image p) ->
      exists error,
        (process_pdf storage (Ok pages) job_id progress_callback).2
        = Failure error).
Proof.
  split; [exact tile_ocr_blank_raises |].
  split; [exact tile_ocr_blank_error |].
  intros storage pages job_id cb p Hin Hblank.
  assert (Hraise : raises (process_pdf_body storage (Ok pages) job_id cb)).
  { unfold process_pdf_body.
    apply raises_bind; intros _ _.
    apply raises_bind; intros images Himg. simpl in Himg. injection Himg as <-.
    apply raises_bind; intros _ _.
    apply raises_bind_l.
    assert (Hit : exists i, In (i, p) (enumerate pages)).
    { apply list_elem_of_In, list_elem_of_lookup in Hin as [i Hi].
      exists (Z.of_nat i). apply list_elem_of_In, list_elem_of_lookup.
      exists i. unfold enumerate. rewrite list_lookup_imap, Hi. reflexivity. }
    destruct Hit as [i Hit].
    apply (for_each_raises _ _ (i, p) Hit).
    intros [all_excel_data results]. unfold process_page.
    destruct (shape p) as [full_h full_w].
    apply raises_bind; intros _ _.
    apply raises_bind_l. now apply tile_ocr_blank_raises. }
  destruct Hraise as [e He]. unfold process_pdf. rewrite He. eauto.
Qed.

Lemma blank_page_fails_the_document_witness :
  let blank : detector := fun batch => Ok (map (fun _ => None) batch) in
  let p := mkPage (10, 10) blank (fun _ => Ok []) in
  outcome (tile_ocr 10 10 blank 24 None)
  = Raise (ValueError "No objects to concatenate") /\
  exists error, (process_pdf None (Ok [p]) (Some "job") true).2 = Failure error.
Proof.
  intros blank p.
  assert (Hblank : forall batch, exists out,
             blank batch = Ok out /\ length out = length batch /\
             Forall is_blank out).
  { intros batch. eexists. split; [reflexivity |].
    split; [apply length_map |].
    apply List.Forall_map, Forall_forall. intros t _. now left. }
  destruct blank_page_fails_the_document as (_ & Herr & Hdoc). split.
  - apply Herr; [lia | exact Hblank | discriminate].
  - apply (Hdoc None [p] (Some "job") true p); [now left |].
    intros batch out Hout. destruct (Hblank batch) as (out' & Hout' & _ & Hf).
    simpl in Hout. congruence.
Defined.

Lemma process_pdf_progress_monotone_witness :
  let from_image : detector :=
    fun batch =>
      Ok (map (fun _ => Some [mkRow "12" (9 # 10) (1 # 10) (1 # 10)
                                    (2 # 10) (3 # 10)]) batch) in
  let p := mkPage (10, 10) from_image (fun ws => Ok (map (fun _ => "T") ws)) in
  let run := process_pdf None (Ok [p; p]) (Some "job") true in
  StronglySorted Z.le run.1 /\
  Forall (fun v => 0 <= v <= 100) run.1 /\
  last run.1 = Some 100.
Proof.
  intros from_image p run.
  destruct (process_pdf_progress_monotone None (Ok [p; p]) (Some "job") true)
    as (Hs & Hf & Hlast).
  split; [exact Hs |]. split; [exact Hf |].
  eapply Hlast; [vm_compute; reflexivity | reflexivity].
Defined.

End ClimbFacts.

(** ** The job store and the cancellation endpoint *)

Section JobFacts.
Import JobQueue Api.

Lemma update_fields_status now status (kwargs : gmap string pyval) :
  kwargs !! "status" = None ->
  dict_with_kwargs
    (<["status" := VStr status]> (<["updated_at" := VStr now]> ∅)) kwargs
  !! "status" = Some (VStr status).
Proof.
  intros Hk. unfold dict_with_kwargs.
  rewrite lookup_union_r by exact Hk. apply lookup_insert_eq.
Qed.

Lemma update_job_status_lookup now (q : gmap string (gmap string pyval))
    job_id status kwargs :
  update_job_status now q job_id status kwargs !! job_id
  = Some (dict_update (get_job_status q job_id)
            (dict_with_kwargs
               (<["status" := VStr status]> (<["updated_at" := VStr now]> ∅))
               kwargs)).
Proof.
  unfold update_job_status, get_job_status.
  destruct (q !! job_id) as [job |] eqn:E.
  - rewrite E. apply lookup_insert_eq.
  - rewrite !lookup_insert_eq. reflexivity.
Qed.

Lemma update_job_status_other now (q : gmap string (gmap string pyval))
    job_id status kwargs other :
  other <> job_id ->
  update_job_status now q job_id status kwargs !! other = q !! other.
Proof.
  intros Hne. unfold update_job_status.
  destruct (q !! job_id) as [job |] eqn:E.
  - rewrite lookup_insert_ne by congruence. reflexivity.
  - rewrite !lookup_insert_ne by congruence. reflexivity.
Qed.

(** ** C10 *)

(** C10. For a job id absent from the in-memory store,
    [save_job_results] returns normally and leaves the store unchanged,
    whereas [update_job_status] creates a record for that id, made of
    exactly the status, the timestamp and the keyword arguments, and
    touches no other job. *)
Theorem absent_job_save_is_noop_update_creates
    (q : gmap string (gmap string pyval)) (job_id : string) :
  q !! job_id = None ->
  (forall results, save_job_results q job_id results = q) /\
  (forall now status kwargs,
      let q' := update_job_status now q job_id status kwargs in
      q' !! job_id
      = Some (dict_with_kwargs
                (<["status" := VStr status]> (<["updated_at" := VStr now]> ∅))
                kwargs) /\
      (kwargs !! "status" = None ->
       get_job_status q' job_id !! "status" = Some (VStr status)) /\
      (forall other, other <> job_id -> q' !! other = q !! other)).
Proof.
  intros Habs. split.
  - intros results. unfold save_job_results. now rewrite Habs.
  - intros now status kwargs q'.
    assert (Hq' : q' !! job_id
                  = Some (dict_with_kwargs
                            (<["status" := VStr status]>
                               (<["updated_at" := VStr now]> ∅)) kwargs)).
    { unfold q'. rewrite update_job_status_lookup.
      unfold get_job_status. rewrite Habs. simpl.
      unfold dict_update. now rewrite (right_id_L ∅ (∪)). }
    split; [exact Hq' |]. split.
    + intros Hk. unfold get_job_status. rewrite Hq'. simpl.
      now apply update_fields_status.
    + intros other Hne. now apply update_job_status_other.
Qed.

Lemma absent_job_save_is_noop_update_creates_witness :
  save_job_results ∅ "j1" (VList []) = ∅ /\
  get_job_status
    (update_job_status "2026-01-01T00:00:00" ∅ "j1" "processing"
                       {[ "progress" := VInt 0 ]})
    "j1" !! "status"
  = Some (VStr "processing").
Proof.
  destruct (absent_job_save_is_noop_update_creates ∅ "j1"
              (lookup_empty "j1")) as [Hsave Hupd].
  split; [apply Hsave |].
  apply (Hupd "2026-01-01T00:00:00" "processing" {[ "progress" := VInt 0 ]}).
  reflexivity.
Defined.

(** ** C3 *)

(** C3, as the claim states it, fails: a cancellation request against a
    job that is already [cancelled] is not rejected; it is answered with
    HTTP 200. *)
Lemma cancel_job_accepts_cancelled_job :
  let q : gmap string (gmap string pyval) :=
    {[ "j1" := {[ "status" := VStr "cancelled" ]} ]} in
  code (cancel_job "2026-01-01T00:00:00" q "j1").2 = 200%Z /\
  body (cancel_job "2026-01-01T00:00:00" q "j1").2 !! "error" = None.
Proof. vm_compute. split; reflexivity. Qed.

(** C3, amended. For a job whose status is [completed] or [failed], a
    cancellation request is rejected as an error (HTTP 400) and the store
    is left unchanged.  For a job in any other status (queued, processing,
    and also cancelled) the request succeeds (HTTP 200), the job's status
    is [cancelled] afterwards and no other job changes. *)
Theorem cancel_job_rejects_finished_jobs
    (now : string) (q : gmap string (gmap string pyval)) (job_id : string)
    (job : gmap string pyval) (status : string) :
  q !! job_id = Some job ->
  job !! "status" = Some (VStr status) ->
  let run := cancel_job now q job_id in
  (status = "completed" \/ status = "failed" ->
   run.1 = q /\ code run.2 = 400%Z /\ is_Some (body run.2 !! "error")) /\
  (status <> "completed" -> status <> "failed" ->
   code run.2 = 200%Z /\
   body run.2 !! "error" = None /\
   get_job_status run.1 job_id !! "status" = Some (VStr "cancelled") /\
   forall other, other <> job_id -> run.1 !! other = q !! other).
Proof.
  intros Hq Hs run. unfold run, cancel_job, get_job_status.
  rewrite Hq. simpl.
  destruct (decide (job = ∅)) as [-> | _];
    [rewrite lookup_empty in Hs; discriminate |].
  rewrite Hs. simpl. split.
  - intros Hfin.
    assert (E : String.eqb status "completed" || String.eqb status "failed"
                = true).
    { destruct Hfin as [-> | ->]; reflexivity. }
    rewrite E. simpl. split; [reflexivity |]. split; [reflexivity |].
    rewrite lookup_singleton_eq. eauto.
  - intros Hc Hf.
    assert (E : String.eqb status "completed" || String.eqb status "failed"
                = false).
    { apply orb_false_iff. split; now apply String.eqb_neq. }
    rewrite E. simpl. split; [reflexivity |]. split; [reflexivity |]. split.
    + rewrite update_job_status_lookup. simpl.
      unfold dict_update. apply lookup_union_Some_l.
      apply update_fields_status. reflexivity.
    + intros other Hne. now apply update_job_status_other.
Qed.

Lemma cancel_job_rejects_finished_jobs_witness :
  let q : gmap string (gmap string pyval) :=
    {[ "j1" := {[ "status" := VStr "completed" ]} ]} in
  let run := cancel_job "2026-01-01T00:00:00" q "j1" in
  run.1 = q /\ code run.2 = 400%Z /\ is_Some (body run.2 !! "error").
Proof.
  intros q run.
  apply (cancel_job_rejects_finished_jobs "2026-01-01T00:00:00" q "j1"
           {[ "status" := VStr "completed" ]} "completed");
    [reflexivity | reflexivity | now left].
Defined.

End JobFacts.

(** * Further properties *)

(** ** The tiler *)

Section TilerMore.
Import Tiler.
Local Open Scope Z_scope.

Lemma fold_left_invariant {A S} (Inv : S -> Prop) (f : S -> A -> S) (l : list A) :
  (forall s a, In a l -> Inv s -> Inv (f s a)) ->
  forall s, Inv s -> Inv (fold_left f l s).
Proof.
  induction l as [| a l IH]; intros Hf s Hs; [exact Hs |].
  simpl. apply IH.
  - intros s' a' Ha'. apply Hf. now right.
  - apply Hf; [now left | exact Hs].
Qed.

Lemma range_elements (stop step y : Z) :
  0 < step ->
  In y (map (fun k : nat => 0 + Z.of_nat k * step)
            (seq 0 (Z.to_nat (Py.range_len 0 stop step)))) ->
  0 <= y < stop /\ (step | y).
Proof.
  intros Hs Hy. apply in_map_iff in Hy as (k & <- & Hk). apply in_seq in Hk.
  unfold Py.range_len in Hk.
  destruct (Z.ltb_spec 0 step); [| lia].
  destruct (Z.ltb_spec 0 stop); [| simpl in Hk; lia].
  assert (Z.of_nat k <= (stop - 0 - 1) / step).
  { assert (0 <= (stop - 0 - 1) / step) by (apply Z.div_pos; lia). lia. }
  pose proof (Z.mul_div_le (stop - 0 - 1) step Hs).
  split; [nia |]. exists (Z.of_nat k). lia.
Qed.

(** The invariant of the two loops of [crop_tiles]: the counter is the
    number of tiles emitted so far, every tile carries its position as
    identifier, and every tile satisfies whatever holds of the tiles cut at
    grid offsets. *)
Lemma crop_loops_invariant h w ts ys xs (P : tile -> Prop) :
  (forall y x tid, In y ys -> In x xs ->
     slice_len y (y + ts) h * slice_len x (x + ts) w <> 0 ->
     P (mkTile tid x y (slice_len y (y + ts) h) (slice_len x (x + ts) w))) ->
  let st := fold_left (fun st y => fold_left (crop_step h w ts y) xs st)
                      ys ([], 0) in
  st.2 = len st.1 /\
  forall (i : nat) t, st.1 !! i = Some t -> tile_id t = Z.of_nat i /\ P t.
Proof.
  intros HP.
  set (Inv := fun st : list tile * Z =>
                st.2 = len st.1 /\
                forall (i : nat) t, st.1 !! i = Some t ->
                                    tile_id t = Z.of_nat i /\ P t).
  apply (fold_left_invariant Inv).
  - intros st y Hy Hst. apply (fold_left_invariant Inv); [| exact Hst].
    clear st Hst. intros [tiles tid] x Hx [Hn Hi]. simpl in Hn. subst tid.
    unfold crop_step.
    destruct (Z.eqb_spec (slice_len y (y + ts) h * slice_len x (x + ts) w) 0)
      as [_ | Hne]; [split; [reflexivity | exact Hi] |].
    split.
    + simpl. unfold len. rewrite length_app. simpl. lia.
    + intros i t Hit. simpl in Hit.
      destruct (lookup_app_Some tiles [mkTile (len tiles) x y
                  (slice_len y (y + ts) h) (slice_len x (x + ts) w)] i t)
        as [Hsplit _].
      destruct (Hsplit Hit) as [Hl | [Hge Hr]]; [now apply Hi |].
      destruct (i - length tiles)%nat as [| n] eqn:E; [| destruct n; discriminate].
      injection Hr as <-. simpl. split; [unfold len; lia |].
      now apply HP.
  - split; [reflexivity |]. intros i t Hit. discriminate.
Qed.

(** X1. The tiles [crop_tiles] returns are numbered by position:
    [tile_id] of the [i]-th tile is [i], so identifiers are dense, start at
    0 and follow the raster-scan order of emission. *)
Theorem crop_tiles_ids_are_positions (h w tile_size overlap : Z)
    (tiles : list tile) (i : nat) (t : tile) :
  crop_tiles h w tile_size overlap = Ok tiles ->
  tiles !! i = Some t ->
  tile_id t = Z.of_nat i.
Proof.
  unfold crop_tiles. intros H Hi.
  apply result_bind_ok in H as (ys & _ & H).
  apply result_bind_ok in H as (xs & _ & H). injection H as <-.
  destruct (crop_loops_invariant h w tile_size ys xs (fun _ => True))
    as [_ Hinv]; [trivial |].
  now apply (Hinv i t).
Qed.

Lemma crop_tiles_ids_are_positions_witness :
  crop_tiles 12 12 10 3
  = Ok [mkTile 0 0 0 10 10; mkTile 1 7 0 10 5; mkTile 2 0 7 5 10;
        mkTile 3 7 7 5 5] /\
  tile_id (mkTile 3 7 7 5 5) = Z.of_nat 3.
Proof.
  split; [reflexivity |].
  apply (crop_tiles_ids_are_positions 12 12 10 3
           [mkTile 0 0 0 10 10; mkTile 1 7 0 10 5; mkTile 2 0 7 5 10;
            mkTile 3 7 7 5 5] 3 (mkTile 3 7 7 5 5));
    reflexivity.
Defined.

Lemma crop_tiles_inside (h w tile_size overlap : Z) :
  0 <= overlap < tile_size ->
  exists tiles,
    crop_tiles h w tile_size overlap = Ok tiles /\
    Forall (fun t =>
              (0 <= x_offset t /\ 0 < tile_w t <= tile_size /\
               x_offset t + tile_w t <= w /\ (tile_size - overlap | x_offset t)) /\
              (0 <= y_offset t /\ 0 < tile_h t <= tile_size /\
               y_offset t + tile_h t <= h /\ (tile_size - overlap | y_offset t)))
           tiles.
Proof.
  intros Hov. unfold crop_tiles. rewrite !range_ok by lia.
  cbn [mbind result_bind]. eexists. split; [reflexivity |].
  apply Forall_lookup. intros i t Hit.
  set (P := fun t : tile =>
              (0 <= x_offset t /\ 0 < tile_w t <= tile_size /\
               x_offset t + tile_w t <= w /\ (tile_size - overlap | x_offset t)) /\
              (0 <= y_offset t /\ 0 < tile_h t <= tile_size /\
               y_offset t + tile_h t <= h /\ (tile_size - overlap | y_offset t))).
  change (P t).
  refine (proj2 (proj2 (crop_loops_invariant h w tile_size _ _ P _) i t Hit)).
  intros y x tid Hy Hx Hne. unfold P. simpl.
  apply range_elements in Hy as [Hy Hdy]; [| lia].
  apply range_elements in Hx as [Hx Hdx]; [| lia].
  destruct (slice_len_covering y tile_size h y) as [Ey _]; [lia | lia | lia |].
  destruct (slice_len_covering x tile_size w x) as [Ex _]; [lia | lia | lia |].
  rewrite Ey, Ex. repeat split; try assumption; lia.
Qed.

(** X2. With [tile_size > overlap >= 0] the tiler does not fail, and
    every tile it returns is a non-empty rectangle inside the image, no
    larger than [tile_size] on either axis, whose offsets are non-negative
    multiples of the stride. *)
Theorem crop_tiles_stay_inside_image (h w tile_size overlap : Z) :
  0 <= overlap < tile_size ->
  exists tiles,
    crop_tiles h w tile_size overlap = Ok tiles /\
    Forall (fun t =>
              (0 <= x_offset t /\ 0 < tile_w t <= tile_size /\
               x_offset t + tile_w t <= w /\ (tile_size - overlap | x_offset t)) /\
              (0 <= y_offset t /\ 0 < tile_h t <= tile_size /\
               y_offset t + tile_h t <= h /\ (tile_size - overlap | y_offset t)))
           tiles.
Proof. exact (crop_tiles_inside h w tile_size overlap). Qed.

Lemma crop_tiles_stay_inside_image_witness :
  exists tiles,
    crop_tiles 1600 1000 1000 250 = Ok tiles /\
    Forall (fun t =>
              (0 <= x_offset t /\ 0 < tile_w t <= 1000 /\
               x_offset t + tile_w t <= 1000 /\ (1000 - 250 | x_offset t)) /\
              (0 <= y_offset t /\ 0 < tile_h t <= 1000 /\
               y_offset t + tile_h t <= 1600 /\ (1000 - 250 | y_offset t)))
           tiles.
Proof. apply (crop_tiles_stay_inside_image 1600 1000 1000 250). lia. Defined.

Lemma crop_row_length h w ts y xs st :
  (forall x, In x xs -> slice_len y (y + ts) h * slice_len x (x + ts) w <> 0) ->
  length (fold_left (crop_step h w ts y) xs st).1
  = (length st.1 + length xs)%nat.
Proof.
  revert st. induction xs as [| x xs IH]; intros st Hne; simpl; [lia |].
  rewrite IH by (intros x' Hx'; apply Hne; now right).
  destruct st as [tiles tid]. unfold crop_step.
  destruct (Z.eqb_spec (slice_len y (y + ts) h * slice_len x (x + ts) w) 0)
    as [E | _]; [exfalso; exact (Hne x (or_introl eq_refl) E) |].
  simpl. rewrite length_app. simpl. lia.
Qed.

Lemma crop_rows_length h w ts ys xs st :
  (forall y x, In y ys -> In x xs ->
     slice_len y (y + ts) h * slice_len x (x + ts) w <> 0) ->
  length (fold_left (fun st y => fold_left (crop_step h w ts y) xs st) ys st).1
  = (length st.1 + length ys * length xs)%nat.
Proof.
  revert st. induction ys as [| y ys IH]; intros st Hne; simpl; [lia |].
  rewrite IH by (intros y' x' Hy'; apply Hne; now right).
  rewrite crop_row_length by (intros x' Hx'; apply Hne; [now left | exact Hx']).
  lia.
Qed.

Lemma range_len_ceil (stop step : Z) :
  0 < step -> 0 <= stop ->
  Py.range_len 0 stop step = (stop + step - 1) / step.
Proof.
  intros Hs Hstop. unfold Py.range_len.
  destruct (Z.ltb_spec 0 step); [| lia].
  destruct (Z.ltb_spec 0 stop).
  - replace (stop + step - 1) with (stop - 0 - 1 + 1 * step) by lia.
    rewrite Z.div_add by lia. reflexivity.
  - assert (stop = 0) as -> by lia. symmetry. apply Z.div_small. lia.
Qed.

(** X3. With [tile_size > overlap >= 0] no grid position is skipped: an
    image of shape [(h, w)] yields exactly
    [ceil(h / stride) * ceil(w / stride)] tiles. *)
Theorem crop_tiles_count (h w tile_size overlap : Z) :
  0 <= overlap < tile_size -> 0 <= h -> 0 <= w ->
  exists tiles,
    crop_tiles h w tile_size overlap = Ok tiles /\
    len tiles
    = ((h + (tile_size - overlap) - 1) / (tile_size - overlap))
      * ((w + (tile_size - overlap) - 1) / (tile_size - overlap)).
Proof.
  intros Hov Hh Hw. unfold crop_tiles. rewrite !range_ok by lia.
  cbn [mbind result_bind]. eexists. split; [reflexivity |].
  unfold len. rewrite crop_rows_length.
  - simpl. rewrite !length_map, !length_seq, Nat2Z.inj_mul.
    assert (0 <= (h + (tile_size - overlap) - 1) / (tile_size - overlap))
      by (apply Z.div_pos; lia).
    assert (0 <= (w + (tile_size - overlap) - 1) / (tile_size - overlap))
      by (apply Z.div_pos; lia).
    rewrite !range_len_ceil by lia. rewrite !Z2Nat.id by assumption.
    reflexivity.
  - intros y x Hy Hx.
    apply range_elements in Hy as [Hy _]; [| lia].
    apply range_elements in Hx as [Hx _]; [| lia].
    destruct (slice_len_covering y tile_size h y) as [_ Ey]; [lia | lia | lia |].
    destruct (slice_len_covering x tile_size w x) as [_ Ex]; [lia | lia | lia |].
    nia.
Qed.

Lemma crop_tiles_count_witness :
  exists tiles,
    crop_tiles 1600 1000 1000 250 = Ok tiles /\
    len tiles = ((1600 + (1000 - 250) - 1) / (1000 - 250))
                * ((1000 + (1000 - 250) - 1) / (1000 - 250)).
Proof. apply (crop_tiles_count 1600 1000 1000 250); lia. Defined.

End TilerMore.

(** ** Batching *)

Section BatchMore.
Import Orchestrator.

Lemma batches_of_sizes {A} (fuel n : nat) (l : list A) :
  (1 <= n)%nat -> (length l <= fuel)%nat ->
  Forall (fun b => (0 < length b <= n)%nat) (batches_of fuel n l) /\
  forall (i : nat) b,
    batches_of fuel n l !! i = Some b ->
    (S i < length (batches_of fuel n l))%nat -> length b = n.
Proof.
  intros Hn. revert l. induction fuel as [| fuel IH]; intros l Hl.
  - split; [constructor | intros i b Hb; discriminate].
  - destruct l as [| x l]; [split; [constructor | intros i b Hb; discriminate] |].
    cbn [batches_of].
    destruct (IH (drop n (x :: l))) as [Hall Hfull].
    { rewrite length_drop. simpl in *. lia. }
    split.
    + constructor; [| exact Hall].
      rewrite length_take. simpl. lia.
    + intros [| i] b Hb Hlen; simpl in Hb, Hlen.
      * injection Hb as <-. rewrite length_take.
        destruct (drop n (x :: l)) as [| y rest] eqn:E.
        { destruct fuel; simpl in Hlen; lia. }
        assert (length (drop n (x :: l)) <> 0)%nat by (rewrite E; discriminate).
        rewrite length_drop in H. lia.
      * apply (Hfull i b Hb). lia.
Qed.

(** X4. [batched] with [n >= 1] cuts a list into consecutive batches:
    concatenating them gives the list back, no batch is empty or longer
    than [n], and every batch but the last has exactly [n] elements.  With
    [n < 1] it raises [ValueError]. *)
Theorem batched_partitions {A} (l : list A) (n : Z) :
  ((1 <= n)%Z ->
   exists batches,
     batched l n = Ok batches /\
     concat batches = l /\
     Forall (fun b => (0 < len b <= n)%Z) batches /\
     forall (i : nat) b,
       batches !! i = Some b -> (S i < length batches)%nat -> len b = n) /\
  ((n < 1)%Z -> batched l n = Raise (ValueError "n must be at least one")).
Proof.
  split; intros Hn; unfold batched.
  - destruct (Z.ltb_spec n 1); [lia |].
    eexists. split; [reflexivity |].
    destruct (batches_of_concat (length l) (Z.to_nat n) l ltac:(lia) (le_n _))
      as [Hc _].
    destruct (batches_of_sizes (length l) (Z.to_nat n) l ltac:(lia) (le_n _))
      as [Hs Hf].
    split; [exact Hc |]. split.
    + eapply Forall_impl; [exact Hs |]. intros b Hb. simpl in Hb. unfold len. lia.
    + intros i b Hb Hi. unfold len. rewrite (Hf i b Hb Hi). lia.
  - destruct (Z.ltb_spec n 1); [reflexivity | lia].
Qed.

Lemma batched_partitions_witness :
  exists batches,
    batched [1; 2; 3; 4; 5]%Z 2 = Ok batches /\
    concat batches = [1; 2; 3; 4; 5]%Z /\
    Forall (fun b => (0 < len b <= 2)%Z) batches /\
    forall (i : nat) b,
      batches !! i = Some b -> (S i < length batches)%nat -> len b = 2%Z.
Proof. apply (proj1 (batched_partitions [1; 2; 3; 4; 5]%Z 2)). lia. Defined.

End BatchMore.

(** ** Overlap ratio *)

Section IouMore.
Import Detection Dedup.
Local Open Scope Q_scope.

Lemma box_iou_positive_union (a b : box) :
  0 < union_area a b -> box_iou a b = inter_area a b / union_area a b.
Proof. intros H. unfold box_iou. apply Qpositive_true in H. now rewrite H. Qed.

Lemma box_iou_zero_inter (a b : box) : inter_area a b == 0 -> box_iou a b == 0.
Proof.
  intros H. unfold box_iou.
  destruct (Qpositive (union_area a b)); [| reflexivity].
  rewrite H. unfold Qdiv. apply Qmult_0_l.
Qed.

Lemma box_iou_self (a : box) :
  well_formed a -> 0 < area a -> box_iou a a == 1.
Proof.
  destruct a as [[[ax1 ay1] ax2] ay2]. intros [Hx Hy] Ha.
  assert (Hi : inter_area (ax1, ay1, ax2, ay2) (ax1, ay1, ax2, ay2)
               == area (ax1, ay1, ax2, ay2)).
  { unfold inter_area, area.
    rewrite !Q.max_id, !Q.min_id.
    rewrite (Q.max_r 0 (ax2 - ax1)) by lra.
    rewrite (Q.max_r 0 (ay2 - ay1)) by lra. reflexivity. }
  assert (Hu : union_area (ax1, ay1, ax2, ay2) (ax1, ay1, ax2, ay2)
               == area (ax1, ay1, ax2, ay2)).
  { unfold union_area. rewrite Hi. ring. }
  rewrite box_iou_positive_union by (rewrite Hu; exact Ha).
  rewrite Hi, Hu. field. intros E. rewrite E in Ha. discriminate.
Qed.

Lemma box_iou_apart (a b : box) :
  (let '(ax1, ay1, ax2, ay2) := a in
   let '(bx1, by1, bx2, by2) := b in
   ax2 <= bx1 \/ bx2 <= ax1 \/ ay2 <= by1 \/ by2 <= ay1) ->
  box_iou a b == 0.
Proof.
  destruct a as [[[ax1 ay1] ax2] ay2], b as [[[bx1 by1] bx2] by2].
  intros H. apply box_iou_zero_inter. unfold inter_area.
  pose proof (Q.le_min_l ax2 bx2). pose proof (Q.le_min_r ax2 bx2).
  pose proof (Q.le_max_l ax1 bx1). pose proof (Q.le_max_r ax1 bx1).
  pose proof (Q.le_min_l ay2 by2). pose proof (Q.le_min_r ay2 by2).
  pose proof (Q.le_max_l ay1 by1). pose proof (Q.le_max_r ay1 by1).
  destruct H as [H | [H | [H | H]]].
  - rewrite (Q.max_l 0 (Qmin ax2 bx2 - Qmax ax1 bx1)) by lra. ring.
  - rewrite (Q.max_l 0 (Qmin ax2 bx2 - Qmax ax1 bx1)) by lra. ring.
  - rewrite (Q.max_l 0 (Qmin ay2 by2 - Qmax ay1 by1)) by lra. ring.
  - rewrite (Q.max_l 0 (Qmin ay2 by2 - Qmax ay1 by1)) by lra. ring.
Qed.

(** X5. The overlap ratio does not depend on the order of its arguments;
    a well-formed box of positive area has ratio 1 with itself; and two
    boxes that do not overlap on one axis have ratio 0. *)
Theorem box_iou_symmetric_self_apart (a b : box) :
  box_iou a b == box_iou b a /\
  (well_formed a -> 0 < area a -> box_iou a a == 1) /\
  ((let '(ax1, ay1, ax2, ay2) := a in
    let '(bx1, by1, bx2, by2) := b in
    ax2 <= bx1 \/ bx2 <= ax1 \/ ay2 <= by1 \/ by2 <= ay1) ->
   box_iou a b == 0).
Proof.
  split; [apply box_iou_sym |].
  split; [apply box_iou_self | apply box_iou_apart].
Qed.

Lemma box_iou_symmetric_self_apart_witness :
  box_iou (0, 0, 1 # 2, 1 # 2) (0, 0, 1 # 2, 1 # 2) == 1 /\
  box_iou (0, 0, 1 # 2, 1 # 2) (1 # 2, 0, 1, 1 # 2) == 0.
Proof.
  split.
  - apply (proj1 (proj2 (box_iou_symmetric_self_apart
                           (0, 0, 1 # 2, 1 # 2) (0, 0, 1 # 2, 1 # 2)))).
    + split; discriminate.
    + reflexivity.
  - apply (proj2 (proj2 (box_iou_symmetric_self_apart
                           (0, 0, 1 # 2, 1 # 2) (1 # 2, 0, 1, 1 # 2)))).
    left. apply Qle_refl.
Defined.

End IouMore.

(** ** Deduplication *)

Section DedupMore.
Import Detection Dedup.

Lemma lookup_app_at {A} (pre : list A) x post :
  (pre ++ x :: post) !! length pre = Some x.
Proof. rewrite lookup_app_r by lia. now rewrite Nat.sub_diag. Qed.

Lemma shift_app {A} (pre : list A) x post : (pre ++ [x]) ++ post = pre ++ x :: post.
Proof. now rewrite <- app_assoc. Qed.

(** Reading a table at a filtered range of positions gives a sublist. *)
Lemma loc_filter_sublist {A} (P : nat -> Prop) `{forall i, Decision (P i)}
    (pre l : list A) :
  omap (fun i => (pre ++ l) !! i) (filter P (seq (length pre) (length l)))
  `sublist_of` l.
Proof.
  revert pre. induction l as [| x l IH]; intros pre; [constructor |].
  simpl. rewrite filter_cons.
  specialize (IH (pre ++ [x])). rewrite shift_app, length_app in IH.
  simpl in IH. rewrite Nat.add_1_r in IH.
  destruct (decide (P (length pre))).
  - simpl. rewrite lookup_app_at. now apply sublist_skip.
  - now apply sublist_cons.
Qed.

Lemma loc_all {A} (pre l : list A) :
  omap (fun i => (pre ++ l) !! i) (seq (length pre) (length l)) = l.
Proof.
  revert pre. induction l as [| x l IH]; intros pre; [reflexivity |].
  simpl. rewrite lookup_app_at. f_equal.
  specialize (IH (pre ++ [x])). rewrite shift_app, length_app in IH.
  simpl in IH. now rewrite Nat.add_1_r in IH.
Qed.

Lemma filter_all {A} (P : A -> Prop) `{forall x, Decision (P x)} (l : list A) :
  (forall x, P x) -> filter P l = l.
Proof.
  intros HP. induction l as [| x l IH]; [reflexivity |].
  rewrite filter_cons_True by apply HP. now rewrite IH.
Qed.

Lemma sublist_In {A} (l1 l2 : list A) x : l1 `sublist_of` l2 -> x ∈ l1 -> x ∈ l2.
Proof.
  induction 1 as [| y l1 l2 _ IH | y l1 l2 _ IH]; intros Hx.
  - exact Hx.
  - apply elem_of_cons in Hx as [-> | Hx]; [left | right; now apply IH].
  - right. now apply IH.
Qed.

Lemma sublist_sorted {A} (R : A -> A -> Prop) (l1 l2 : list A) :
  l1 `sublist_of` l2 -> StronglySorted R l2 -> StronglySorted R l1.
Proof.
  induction 1 as [| y l1 l2 Hsub IH | y l1 l2 Hsub IH]; intros Hs.
  - constructor.
  - inversion Hs as [| ? ? Hs' Hy]; subst. constructor; [now apply IH |].
    rewrite Forall_forall in *. intros x Hx. apply Hy.
    eapply sublist_In; eassumption.
  - inversion Hs; subst. now apply IH.
Qed.

Lemma sorted_lookup {A} (R : A -> A -> Prop) (l : list A) a b x y :
  StronglySorted R l -> a < b -> l !! a = Some x -> l !! b = Some y -> R x y.
Proof.
  intros Hs. revert a b. induction Hs as [| z l Hs IH Hz]; intros a b Hab Ha Hb.
  - discriminate.
  - destruct b as [| b]; [lia |]. simpl in Hb. destruct a as [| a].
    + injection Ha as <-. rewrite Forall_forall in Hz.
      apply Hz. eapply list_elem_of_lookup_2. exact Hb.
    + simpl in Ha. apply (IH a b); [lia | assumption | assumption].
Qed.

Lemma seq_sorted k n : StronglySorted lt (seq k n).
Proof.
  revert k. induction n as [| n IH]; intros k; simpl; constructor; [apply IH |].
  apply Forall_forall. intros x Hx. apply list_elem_of_In, in_seq in Hx. lia.
Qed.

Lemma filter_sublist_of {A} (P : A -> Prop) `{forall x, Decision (P x)} (l : list A) :
  filter P l `sublist_of` l.
Proof.
  induction l as [| x l IH]; [constructor |].
  rewrite filter_cons. destruct (decide (P x));
    [now apply sublist_skip | now apply sublist_cons].
Qed.

Lemma loc_lookup {A} (s : list A) (ks : list nat) (a : nat) :
  Forall (fun k => k < length s) ks ->
  omap (fun i => s !! i) ks !! a = ks !! a ≫= (fun i => s !! i).
Proof.
  intros Hks. revert a. induction Hks as [| k ks Hk _ IH]; intros a; [reflexivity |].
  simpl. destruct (lookup_lt_is_Some_2 s k Hk) as [x Hx]. rewrite Hx.
  destruct a as [| a]; simpl; [now rewrite Hx | apply IH].
Qed.

(** The surviving positions of a run of [nms], as the output reads
    them. *)
Lemma survivors_lookup (s : list detection) t a d :
  loc s (nms s t).1 !! a = Some d ->
  exists k, filter (fun i => i ∉ (nms s t).2) (seq 0 (length s)) !! a = Some k /\
            s !! k = Some d /\ k ∉ (nms s t).2.
Proof.
  destruct (nms_spec s t) as [Hk _]. unfold loc. rewrite Hk.
  rewrite loc_lookup.
  - destruct (filter _ _ !! a) as [k |] eqn:E; [| discriminate].
    simpl. intros Hd. exists k. split; [reflexivity |]. split; [exact Hd |].
    apply list_elem_of_lookup_2, list_elem_of_filter in E. tauto.
  - apply Forall_forall. intros k Hin.
    apply list_elem_of_filter in Hin as [_ Hin].
    apply list_elem_of_In, in_seq in Hin. lia.
Qed.

Lemma survivor_in_output (s : list detection) t k d :
  s !! k = Some d -> k ∉ (nms s t).2 -> d ∈ loc s (nms s t).1.
Proof.
  intros Hd Hk. destruct (nms_spec s t) as [Hkeep _]. unfold loc. rewrite Hkeep.
  apply list_elem_of_omap. exists k. split; [| exact Hd].
  apply list_elem_of_filter. split; [exact Hk |].
  apply list_elem_of_In, in_seq. apply lookup_lt_Some in Hd. lia.
Qed.

Lemma nms_output_distinct (s : list detection) t a b da db :
  a < b ->
  loc s (nms s t).1 !! a = Some da -> loc s (nms s t).1 !! b = Some db ->
  duplicates t da db = false.
Proof.
  intros Hab Ha Hb.
  apply survivors_lookup in Ha as (ka & Hka & Hda & Hna).
  apply survivors_lookup in Hb as (kb & Hkb & Hdb & Hnb).
  assert (Hlt : ka < kb).
  { eapply (sorted_lookup lt); [| exact Hab | exact Hka | exact Hkb].
    eapply sublist_sorted; [apply filter_sublist_of | apply seq_sorted]. }
  apply not_true_iff_false. intros Hdup. apply Hnb.
  apply (proj2 (nms_spec s t)). exists ka.
  apply lookup_lt_Some in Hdb as Hlen.
  split; [lia |]. split; [exact Hna |]. exists da, db. tauto.
Qed.

Lemma deduplicate_ocr_sublist df t :
  deduplicate_ocr df t `sublist_of` sort_values df.
Proof.
  unfold deduplicate_ocr. destruct (nms_spec (sort_values df) t) as [Hk _].
  unfold loc. rewrite Hk.
  apply (loc_filter_sublist _ [] (sort_values df)).
Qed.

Lemma deduplicate_ocr_head df t :
  head (deduplicate_ocr df t) = head (sort_values df).
Proof.
  unfold deduplicate_ocr. destruct (nms_spec (sort_values df) t) as [Hk Hs].
  unfold loc. rewrite Hk.
  destruct (sort_values df) as [| d s]; [reflexivity |].
  simpl. rewrite filter_cons_True; [reflexivity |].
  intros H. apply Hs in H as (i & Hi & _). lia.
Qed.

(** X6. [deduplicate_ocr] only removes rows: its output is a sublist of
    the table sorted by descending confidence, hence sorted itself, no
    longer than the input and contained in it with multiplicity.  The row
    that the sort puts first always survives, so the output of a non-empty
    table is non-empty. *)
Theorem deduplicate_ocr_only_removes (df : list detection) (t : Q) :
  deduplicate_ocr df t `sublist_of` sort_values df /\
  deduplicate_ocr df t ⊆+ df /\
  length (deduplicate_ocr df t) <= length df /\
  StronglySorted conf_ge (deduplicate_ocr df t) /\
  head (deduplicate_ocr df t) = head (sort_values df) /\
  (deduplicate_ocr df t = [] <-> df = []).
Proof.
  pose proof (deduplicate_ocr_sublist df t) as Hsub.
  assert (Hms : deduplicate_ocr df t ⊆+ df).
  { transitivity (sort_values df); [now apply sublist_submseteq |].
    apply Permutation_submseteq, sort_values_perm. }
  split; [exact Hsub |]. split; [exact Hms |].
  split; [now apply submseteq_length |].
  split; [eapply sublist_sorted; [exact Hsub | apply sort_values_sorted] |].
  split; [apply deduplicate_ocr_head |].
  split.
  - intros E. pose proof (deduplicate_ocr_head df t) as Hh. rewrite E in Hh.
    destruct (sort_values df) as [| d s] eqn:Es; [| discriminate].
    apply Permutation_nil. rewrite <- Es. apply sort_values_perm.
  - intros ->. reflexivity.
Qed.

(** X7. After [deduplicate_ocr] no two surviving rows duplicate one
    another (same normalised text and IoU at least the threshold), and
    every row of the input either survives or duplicates a surviving row
    whose confidence is at least its own. *)
Theorem deduplicate_ocr_leaves_no_duplicates (df : list detection) (t : Q) :
  (forall a b da db,
      a < b ->
      deduplicate_ocr df t !! a = Some da ->
      deduplicate_ocr df t !! b = Some db ->
      duplicates t da db = false /\ duplicates t db da = false) /\
  (forall d,
      d ∈ df ->
      d ∈ deduplicate_ocr df t \/
      exists k, k ∈ deduplicate_ocr df t /\
                duplicates t k d = true /\ conf_ge k d).
Proof.
  split.
  - intros a b da db Hab Ha Hb.
    assert (H : duplicates t da db = false)
      by (eapply nms_output_distinct; eassumption).
    split; [exact H | now rewrite duplicates_sym].
  - intros d Hd. unfold deduplicate_ocr.
    set (s := sort_values df).
    rewrite <- (sort_values_perm df) in Hd. fold s in Hd.
    apply list_elem_of_lookup in Hd as [j Hj].
    destruct (decide (j ∈ (nms s t).2)) as [Hin | Hout].
    + right. apply (proj2 (nms_spec s t)) in Hin
        as (i & Hij & Hni & di & dj & Hdi & Hdj & Hdup).
      assert (dj = d) as -> by congruence.
      exists di. split; [eapply survivor_in_output; eassumption |].
      split; [exact Hdup |].
      apply (sorted_lookup conf_ge s i j); [apply sort_values_sorted | lia | | ];
        assumption.
    + left. eapply survivor_in_output; eassumption.
Qed.

Lemma deduplicate_ocr_leaves_no_duplicates_witness :
  let a := mkDetection (mkRow " Abc " (9 # 10) 0 0 (1 # 2) (1 # 2)) 0 in
  let b := mkDetection (mkRow "abc" (8 # 10) 0 0 (1 # 2) (6 # 10)) 1 in
  let c := mkDetection (mkRow "xyz" (7 # 10) 0 0 (1 # 2) (1 # 2)) 2 in
  (duplicates (6 # 10) a c = false /\ duplicates (6 # 10) c a = false) /\
  (b ∈ deduplicate_ocr [b; c; a] (6 # 10) \/
   exists k, k ∈ deduplicate_ocr [b; c; a] (6 # 10) /\
             duplicates (6 # 10) k b = true /\ conf_ge k b).
Proof.
  intros a b c.
  destruct (deduplicate_ocr_leaves_no_duplicates [b; c; a] (6 # 10))
    as [Hdist Hcover].
  split.
  - apply (Hdist 0 1 a c); [lia | vm_compute; reflexivity | vm_compute; reflexivity].
  - apply Hcover. apply list_elem_of_here.
Defined.

Lemma sort_values_sorted_id (l : list detection) :
  StronglySorted conf_ge l -> sort_values l = l.
Proof.
  induction 1 as [| d l Hs IH Hd]; [reflexivity |].
  simpl. rewrite IH. destruct l as [| e l]; [reflexivity |].
  simpl. inversion Hd as [| ? ? He _]; subst. unfold conf_ge in He.
  apply Qle_bool_iff in He. now rewrite He.
Qed.

(** X8. [deduplicate_ocr] is idempotent: running it again on its own
    output, with the same threshold, changes nothing. *)
Theorem deduplicate_ocr_idempotent (df : list detection) (t : Q) :
  deduplicate_ocr (deduplicate_ocr df t) t = deduplicate_ocr df t.
Proof.
  set (out := deduplicate_ocr df t).
  assert (Hsorted : StronglySorted conf_ge out).
  { eapply sublist_sorted; [apply deduplicate_ocr_sublist | apply sort_values_sorted]. }
  unfold deduplicate_ocr at 1. rewrite (sort_values_sorted_id out Hsorted).
  destruct (nms_spec out t) as [Hk Hs]. unfold loc. rewrite Hk.
  rewrite filter_all.
  - apply (loc_all [] out).
  - intros j Hj. apply Hs in Hj as (i & Hij & _ & di & dj & Hdi & Hdj & Hdup).
    assert (duplicates t di dj = false).
    { unfold out, deduplicate_ocr in Hdi, Hdj.
      eapply (nms_output_distinct (sort_values df) t i j); [lia | |]; eassumption. }
    congruence.
Qed.

End DedupMore.

(** ** Coordinates of the final table *)

Section PageMore.
Import Detection Tiler Projector Orchestrator Page.

Lemma renormalised_in_unit (c : Q) (offset tile_dim full_dim : Z) :
  (0 <= c <= 1)%Q ->
  (0 <= offset)%Z -> (0 <= tile_dim)%Z -> (offset + tile_dim <= full_dim)%Z ->
  (0 < full_dim)%Z ->
  (0 <= (c * inject_Z tile_dim + inject_Z offset) / inject_Z full_dim <= 1)%Q.
Proof.
  intros [Hc0 Hc1] Ho Ht Hsum Hf.
  assert (0 <= inject_Z offset)%Q by now apply inject_nonneg.
  assert (0 <= inject_Z tile_dim)%Q by now apply inject_nonneg.
  assert (0 < inject_Z full_dim)%Q by (rewrite <- (Zlt_Qlt 0); exact Hf).
  assert (inject_Z offset + inject_Z tile_dim <= inject_Z full_dim)%Q
    by (rewrite <- inject_Z_plus, <- Zle_Qle; exact Hsum).
  assert (0 <= c * inject_Z tile_dim)%Q by now apply Qmult_le_0_compat.
  assert (c * inject_Z tile_dim <= inject_Z tile_dim)%Q.
  { rewrite <- (Qmult_1_l (inject_Z tile_dim)) at 2.
    now apply Qmult_le_compat_r. }
  split.
  - apply Qle_shift_div_l; [assumption | lra].
  - apply Qle_shift_div_r; [assumption | lra].
Qed.

Lemma projection_rows_on_page (df_tile : list row)
    (x_offset y_offset tile_w tile_h full_w full_h tid : Z) :
  (0 <= x_offset)%Z -> (0 <= tile_w)%Z -> (x_offset + tile_w <= full_w)%Z ->
  (0 <= y_offset)%Z -> (0 <= tile_h)%Z -> (y_offset + tile_h <= full_h)%Z ->
  (0 < full_w)%Z -> (0 < full_h)%Z ->
  Forall within_unit df_tile ->
  Forall (fun d => within_unit (cells d) /\ Detection.tile_id d = tid)
         (project_tile_df_to_global df_tile x_offset y_offset tile_w tile_h
                                    full_w full_h tid).
Proof.
  intros Hx Htw Hxw Hy Hth Hyh Hfw Hfh Hall.
  unfold project_tile_df_to_global. apply List.Forall_map.
  eapply Forall_impl; [exact Hall |].
  intros r (Hx1 & Hy1 & Hx2 & Hy2). split; [| reflexivity].
  unfold within_unit. simpl.
  repeat split; now apply renormalised_in_unit.
Qed.

(** X9. Projection maps a box given in tile-normalised coordinates of
    [0, 1] into page-normalised coordinates of [0, 1], for a tile of
    non-negative size that lies inside a page of positive size; every
    projected row carries the tile's identifier. *)
Theorem projection_stays_on_page (df_tile : list row)
    (x_offset y_offset tile_w tile_h full_w full_h tid : Z) :
  (0 <= x_offset)%Z -> (0 <= tile_w)%Z -> (x_offset + tile_w <= full_w)%Z ->
  (0 <= y_offset)%Z -> (0 <= tile_h)%Z -> (y_offset + tile_h <= full_h)%Z ->
  (0 < full_w)%Z -> (0 < full_h)%Z ->
  Forall within_unit df_tile ->
  Forall (fun d => within_unit (cells d) /\ Detection.tile_id d = tid)
         (project_tile_df_to_global df_tile x_offset y_offset tile_w tile_h
                                    full_w full_h tid).
Proof. exact (projection_rows_on_page df_tile x_offset y_offset tile_w tile_h
                                      full_w full_h tid). Qed.

Lemma projection_stays_on_page_witness :
  Forall (fun d => within_unit (cells d) /\ Detection.tile_id d = 1%Z)
         (project_tile_df_to_global
            [mkRow "a" (9 # 10) (1 # 10) (1 # 10) (2 # 10) (3 # 10)]
            750 0 250 1000 1000 1600 1).
Proof.
  apply projection_stays_on_page; try lia.
  repeat constructor; discriminate.
Defined.

Lemma assemble_preserves (R : row -> Prop) (D : detection -> Prop)
    (T : tile -> Prop) full_w full_h tiles results idxs acc all :
  (forall t rows, T t -> Forall R rows ->
     Forall D (project_tile_df_to_global rows (x_offset t) (y_offset t)
                 (tile_w t) (tile_h t) full_w full_h (Tiler.tile_id t))) ->
  Forall T tiles ->
  Forall (fun res : tile_result => forall rows, res = Some rows -> Forall R rows)
         results ->
  Forall (Forall D) acc ->
  for_each (assemble_step full_w full_h tiles results) idxs acc = Ok all ->
  Forall (Forall D) all.
Proof.
  intros Hproj Ht Hr. revert acc.
  induction idxs as [| i idxs IH]; intros acc Hacc H.
  - simpl in H. now injection H as <-.
  - cbn [for_each] in H. apply result_bind_ok in H as (acc' & Hstep & H).
    apply IH in H; [exact H |]. clear IH H.
    unfold assemble_step in Hstep.
    destruct (results !! i) as [r |] eqn:Er; [| discriminate].
    destruct (tiles !! i) as [t |] eqn:Et; [| discriminate].
    destruct r as [rows |]; [| injection Hstep as <-; exact Hacc].
    apply list_elem_of_lookup_2 in Er, Et.
    rewrite Forall_forall in Hr. rewrite Forall_forall in Ht.
    specialize (Hr _ Er rows eq_refl). specialize (Ht _ Et).
    destruct rows as [| r0 rows]; injection Hstep as <-; [exact Hacc |].
    apply Forall_app. split; [exact Hacc |].
    constructor; [| constructor]. now apply (Hproj t (r0 :: rows)).
Qed.

(** X10. When every row the detector returns has tile-normalised
    coordinates in [0, 1], every row of the table [tile_ocr] returns has
    page-normalised coordinates in [0, 1]. *)
Theorem tile_ocr_coordinates_on_page
    (full_h full_w : Z) (from_image : detector) (batch_size : Z)
    (cb : option (Z -> Z -> M unit)) (words : list word) :
  detector_yields
    (fun res => forall rows, res = Some rows -> Forall within_unit rows)
    from_image ->
  outcome (tile_ocr full_h full_w from_image batch_size cb) = Ok words ->
  Forall (fun wd => within_unit (cells (det wd))) words.
Proof.
  intros Hd H. unfold tile_ocr in H.
  apply outcome_bind_ok in H as (tiles & Htiles & H).
  apply outcome_bind_ok in H as (u1 & _ & H).
  apply outcome_bind_ok in H as (batches & _ & H).
  apply outcome_bind_ok in H as (results & Hres & H).
  apply outcome_bind_ok in H as (u2 & _ & H).
  apply outcome_bind_ok in H as (all_dfs & Hall & H).
  apply outcome_bind_ok in H as (df & Hdf & H).
  simpl in Htiles, Hall, Hdf, H. injection H as <-.
  eapply ocr_batches_yields in Hres; [| exact Hd | constructor].
  destruct (crop_tiles_inside full_h full_w Config.TILE_SIZE Config.TILE_OVERLAP)
    as (tiles' & Htiles' & Hinside);
    [unfold Config.TILE_SIZE, Config.TILE_OVERLAP; lia |].
  assert (tiles' = tiles) as -> by congruence.
  eapply (assemble_preserves within_unit
            (fun d => within_unit (cells d))) in Hall;
    [| | exact Hinside | exact Hres | constructor].
  2:{ intros t rows ((Hx & Htw & Hxw & _) & (Hy & Hth & Hyh & _)) Hrows.
      eapply Forall_impl;
        [apply (projection_rows_on_page rows (x_offset t) (y_offset t)
                  (tile_w t) (tile_h t) full_w full_h (Tiler.tile_id t));
         (lia || assumption) |].
      intros d [Hdw _]. exact Hdw. }
  assert (Hfinal : Forall (fun d => within_unit (cells d))
                          (Dedup.deduplicate_ocr df (6 # 10))).
  { apply deduplicate_ocr_Forall.
    destruct all_dfs as [| l ls]; [discriminate |]. injection Hdf as <-.
    apply (proj2 (Forall_concat _ (l :: ls))). exact Hall. }
  apply Forall_lookup. intros i wd Hwd. unfold with_word_idx in Hwd.
  rewrite list_lookup_imap in Hwd.
  destruct (Dedup.deduplicate_ocr df (6 # 10) !! i) as [d |] eqn:Ed;
    [| discriminate].
  injection Hwd as <-. simpl.
  apply list_elem_of_lookup_2 in Ed. rewrite Forall_forall in Hfinal.
  now apply Hfinal.
Qed.

Lemma tile_ocr_coordinates_on_page_witness :
  let from_image : detector :=
    fun batch =>
      Ok (map (fun _ => Some [mkRow "12" (9 # 10) (1 # 10) (1 # 10)
                                    (2 # 10) (3 # 10)]) batch) in
  exists words,
    outcome (tile_ocr 10 10 from_image 24 None) = Ok words /\
    Forall (fun wd => within_unit (cells (det wd))) words.
Proof.
  intros from_image. eexists. split; [vm_compute; reflexivity |].
  apply (tile_ocr_coordinates_on_page 10 10 from_image 24 None).
  - intros batch out H. injection H as <-.
    apply List.Forall_map, Forall_forall. intros t _ rows Hrows.
    injection Hrows as <-. repeat constructor; discriminate.
  - vm_compute. reflexivity.
Defined.

End PageMore.

(** ** The result of a run *)

Section RunMore.
Import Detection Orchestrator ProcessingService Report.
Local Open Scope Z_scope.

(** X11. A document whose conversion fails makes [process_pdf] return
    that failure after reporting only the initial 0; a document of zero
    pages is not a success either: the run reports 0, 5 and 92 and then
    fails on concatenating zero measurement tables. *)
Theorem process_pdf_without_pages
    (storage : option storage_service) (job_id : option string)
    (progress_callback : bool) :
  (forall e,
      process_pdf storage (Raise e) job_id progress_callback
      = (if progress_callback then [0] else [], Failure (Py.str e))) /\
  process_pdf storage (Ok []) job_id progress_callback
  = (if progress_callback then [0; 5; 92] else [],
     Failure "No objects to concatenate").
Proof.
  split; [intros e |]; destruct progress_callback; reflexivity.
Qed.

Lemma process_page_returns storage job_id cb total all_excel_data results
    page_num image st' :
  outcome (process_page storage job_id cb total (all_excel_data, results)
                        (page_num, image)) = Ok st' ->
  exists pr,
    st' = (all_excel_data ++ [pr_measurements pr], results ++ [pr]) /\
    entry_of_page (bool_decide (is_Some (storage_for storage job_id)))
                  page_num pr.
Proof.
  unfold process_page. destruct (shape image) as [full_h full_w]. intros H.
  apply outcome_bind_ok in H as (u1 & _ & H).
  apply outcome_bind_ok in H as (df_ocr & _ & H).
  apply outcome_bind_ok in H as (u2 & _ & H).
  apply outcome_bind_ok in H as (excel_data & _ & H).
  apply outcome_bind_ok in H as (u3 & _ & H).
  apply outcome_bind_ok in H as (image_url & Hurl & H).
  apply outcome_bind_ok in H as (u4 & _ & H).
  simpl in H. injection H as <-.
  eexists (mkPageResult _ _ _ _). split; [reflexivity |].
  unfold entry_of_page. simpl.
  split; [reflexivity |]. split; [reflexivity |]. split.
  - apply List.Forall_map, Forall_forall. intros m _. reflexivity.
  - intros Hstored. apply bool_decide_eq_false in Hstored.
    destruct (storage_for storage job_id) as [[s j] |];
      [exfalso; apply Hstored; eauto |].
    simpl in Hurl. now injection Hurl as <-.
Qed.

Lemma process_pages_return storage job_id cb total pages (i : nat)
    all_excel_data results st' :
  outcome (for_each (process_page storage job_id cb total)
                    (imap (fun k a => (Z.of_nat (i + k), a)) pages)
                    (all_excel_data, results)) = Ok st' ->
  exists entries,
    st' = (all_excel_data ++ map pr_measurements entries, results ++ entries) /\
    length entries = length pages /\
    forall (k : nat) pr,
      entries !! k = Some pr ->
      entry_of_page (bool_decide (is_Some (storage_for storage job_id)))
                    (Z.of_nat (i + k)) pr.
Proof.
  revert i all_excel_data results.
  induction pages as [| p pages IH]; intros i all_excel_data results H.
  - simpl in H. injection H as <-. exists [].
    rewrite !app_nil_r. split; [reflexivity |]. split; [reflexivity |].
    intros k pr Hk. discriminate.
  - simpl in H. apply outcome_bind_ok in H as (st1 & Hpage & H).
    rewrite Nat.add_0_r in Hpage.
    apply process_page_returns in Hpage as (pr & -> & Hpr).
    erewrite imap_ext in H; [apply (IH (S i)) in H |].
    2:{ intros k a _. simpl. do 2 f_equal. lia. }
    destruct H as (entries & -> & Hlen & Hentries).
    exists (pr :: entries). simpl. rewrite <- !app_assoc. simpl.
    split; [reflexivity |]. split; [now rewrite Hlen |].
    intros [| k] pr' Hk; simpl in Hk.
    + injection Hk as <-. now rewrite Nat.add_0_r.
    + replace (i + S k)%nat with (S i + k)%nat by lia. now apply Hentries.
Qed.

(** X12. When [process_pdf] succeeds: the document had at least one
    page; [total_pages] is the number of pages and [pages] has one entry
    per page, in order, the entry of index [k] carrying page number [k + 1],
    file name [page_k.png] and measurement rows tagged [k + 1];
    [excel_data] is the concatenation of the pages' measurements and
    [total_tendons] its length; and without a storage service or job id no
    image URL and no Excel path is reported. *)
Theorem process_pdf_success_shape
    (storage : option storage_service) (convert_from_path : result (list page))
    (job_id : option string) (progress_callback : bool)
    (total_pages total_tendons : Z) (pages : list page_result)
    (excel_data : list excel_row) (excel_path : option string) :
  (process_pdf storage convert_from_path job_id progress_callback).2
  = Success total_pages total_tendons pages excel_data excel_path ->
  exists images,
    convert_from_path = Ok images /\
    images <> [] /\
    total_pages = len images /\
    length pages = length images /\
    (forall (k : nat) pr,
        pages !! k = Some pr ->
        entry_of_page (bool_decide (is_Some (storage_for storage job_id)))
                      (Z.of_nat k) pr) /\
    excel_data = concat (map pr_measurements pages) /\
    total_tendons = len excel_data /\
    (storage_for storage job_id = None -> excel_path = None).
Proof.
  unfold process_pdf.
  destruct (outcome (process_pdf_body storage convert_from_path job_id
                                      progress_callback)) as [r | e] eqn:E;
    [| discriminate].
  simpl. intros ->. unfold process_pdf_body in E.
  apply outcome_bind_ok in E as (u1 & _ & E).
  apply outcome_bind_ok in E as (images & Himages & E).
  apply outcome_bind_ok in E as (u2 & _ & E).
  apply outcome_bind_ok in E as ([all_excel_data results] & Hloop & E).
  apply outcome_bind_ok in E as (u3 & _ & E).
  apply outcome_bind_ok in E as (consolidated & Hconcat & E).
  apply outcome_bind_ok in E as (path & Hpath & E).
  apply outcome_bind_ok in E as (u4 & _ & E).
  simpl in Himages, Hconcat, E. injection E as <- <- <- <- <-.
  apply (process_pages_return storage job_id progress_callback (len images)
           images 0 [] []) in Hloop
    as (entries & Hst & Hlen & Hentries).
  simpl in Hst. injection Hst as -> ->.
  exists images. split; [exact Himages |].
  assert (Hne : images <> []).
  { intros ->. destruct entries; [| discriminate]. discriminate. }
  split; [exact Hne |]. split; [reflexivity |]. split; [exact Hlen |].
  split; [exact Hentries |]. split.
  - unfold pd_concat in Hconcat.
    destruct (map pr_measurements entries); [discriminate |].
    now injection Hconcat as <-.
  - split; [reflexivity |].
    intros Hnone. rewrite Hnone in Hpath. simpl in Hpath.
    now injection Hpath as <-.
Qed.

Lemma process_pdf_success_shape_witness :
  let from_image : detector :=
    fun batch =>
      Ok (map (fun _ => Some [mkRow "12" (9 # 10) (1 # 10) (1 # 10)
                                    (2 # 10) (3 # 10)]) batch) in
  let p := mkPage (10, 10) from_image (fun ws => Ok (map (fun _ => "T") ws)) in
  exists images,
    Ok [p; p] = Ok images /\
    images <> [] /\
    2 = len images /\
    length [mkPageResult 1 "page_0.png" None [("T", 1)];
            mkPageResult 2 "page_1.png" None [("T", 2)]] = length images /\
    (forall (k : nat) pr,
        [mkPageResult 1 "page_0.png" None [("T", 1)];
         mkPageResult 2 "page_1.png" None [("T", 2)]] !! k = Some pr ->
        entry_of_page (bool_decide (is_Some (storage_for None (Some "job"))))
                      (Z.of_nat k) pr) /\
    [("T", 1); ("T", 2)]
    = concat (map pr_measurements
                  [mkPageResult 1 "page_0.png" None [("T", 1)];
                   mkPageResult 2 "page_1.png" None [("T", 2)]]) /\
    2 = len [("T", 1); ("T", 2)] /\
    (storage_for None (Some "job") = None -> @None string = None).
Proof.
  intros from_image p.
  apply (process_pdf_success_shape None (Ok [p; p]) (Some "job") true).
  vm_compute. reflexivity.
Defined.

End RunMore.

(** ** The job store *)

Section StoreMore.
Import JobQueue Api.

Lemma update_job_status_fields now (q : gmap string (gmap string pyval))
    job_id status (kwargs : gmap string pyval) (k : string) :
  get_job_status (update_job_status now q job_id status kwargs) job_id !! k
  = match kwargs !! k with
    | Some v => Some v
    | None =>
        if decide (k = "status") then Some (VStr status)
        else if decide (k = "updated_at") then Some (VStr now)
        else get_job_status q job_id !! k
    end.
Proof.
  unfold get_job_status at 1. rewrite update_job_status_lookup. simpl.
  unfold dict_update, dict_with_kwargs.
  destruct (kwargs !! k) as [v |] eqn:Ek.
  - apply lookup_union_Some_l, lookup_union_Some_l. exact Ek.
  - destruct (decide (k = "status")) as [-> | Hs].
    { apply lookup_union_Some_l. rewrite lookup_union_r by exact Ek.
      apply lookup_insert_eq. }
    destruct (decide (k = "updated_at")) as [-> | Hu].
    { apply lookup_union_Some_l. rewrite lookup_union_r by exact Ek.
      rewrite lookup_insert_ne by discriminate. apply lookup_insert_eq. }
    rewrite lookup_union_r; [reflexivity |].
    rewrite lookup_union_r by exact Ek.
    rewrite !lookup_insert_ne by congruence. apply lookup_empty.
Qed.

(** X13. [update_job_status] merges field by field: afterwards a field
    named in the keyword arguments has the value given there; otherwise
    [status] and [updated_at] have the new status and the clock reading;
    every other field of the job keeps its previous value; and no other job
    changes.  This holds whether or not the job existed before. *)
Theorem update_job_status_merges (now : string)
    (q : gmap string (gmap string pyval)) (job_id status : string)
    (kwargs : gmap string pyval) :
  let q' := update_job_status now q job_id status kwargs in
  (forall k,
      get_job_status q' job_id !! k
      = match kwargs !! k with
        | Some v => Some v
        | None =>
            if decide (k = "status") then Some (VStr status)
            else if decide (k = "updated_at") then Some (VStr now)
            else get_job_status q job_id !! k
        end) /\
  (forall other, other <> job_id -> q' !! other = q !! other).
Proof.
  split.
  - apply update_job_status_fields.
  - intros other Hne. now apply update_job_status_other.
Qed.

Lemma save_job_results_fields (q : gmap string (gmap string pyval))
    job_id job results (k : string) :
  q !! job_id = Some job ->
  get_job_status (save_job_results q job_id results) job_id !! k
  = if decide (k = "results") then Some results else job !! k.
Proof.
  intros Hq. unfold save_job_results, get_job_status. rewrite Hq.
  rewrite lookup_insert_eq. simpl.
  destruct (decide (k = "results")) as [-> | Hne].
  - apply lookup_insert_eq.
  - apply lookup_insert_ne. congruence.
Qed.

Lemma save_job_results_other (q : gmap string (gmap string pyval))
    job_id results other :
  other <> job_id -> save_job_results q job_id results !! other = q !! other.
Proof.
  intros Hne. unfold save_job_results.
  destruct (q !! job_id); [| reflexivity].
  apply lookup_insert_ne. congruence.
Qed.

(** X14. Results round trip through the store: for a known job,
    [get_job_results] after [save_job_results] returns what was saved, the
    job's other fields and the other jobs are unchanged, and a later
    [update_job_status] whose keyword arguments do not mention [results]
    keeps them.  For a job that is unknown or has no results,
    [get_job_results] is the empty list. *)
Theorem job_results_round_trip (q : gmap string (gmap string pyval))
    (job_id : string) :
  (forall job results,
      q !! job_id = Some job ->
      let q' := save_job_results q job_id results in
      get_job_results q' job_id = results /\
      (forall k, k <> "results" -> get_job_status q' job_id !! k = job !! k) /\
      (forall other, other <> job_id -> q' !! other = q !! other) /\
      (forall now status kwargs,
          kwargs !! "results" = None ->
          get_job_results (update_job_status now q' job_id status kwargs) job_id
          = results)) /\
  (get_job_status q job_id !! "results" = None ->
   get_job_results q job_id = VList []).
Proof.
  split.
  - intros job results Hq q'.
    assert (Hres : get_job_status q' job_id !! "results" = Some results).
    { unfold q'. rewrite (save_job_results_fields q job_id job) by exact Hq.
      reflexivity. }
    split; [unfold get_job_results; now rewrite Hres |].
    split.
    { intros k Hk. unfold q'.
      rewrite (save_job_results_fields q job_id job) by exact Hq.
      destruct (decide (k = "results")); [contradiction | reflexivity]. }
    split; [intros other Hne; now apply save_job_results_other |].
    intros now status kwargs Hk. unfold get_job_results.
    rewrite update_job_status_fields, Hk, Hres. reflexivity.
  - intros Hnone. unfold get_job_results. now rewrite Hnone.
Qed.

Lemma job_results_round_trip_witness :
  let q : gmap string (gmap string pyval) :=
    {[ "j1" := {[ "status" := VStr "processing" ]} ]} in
  get_job_results (save_job_results q "j1" (VList [VStr "page 1"])) "j1"
  = VList [VStr "page 1"] /\
  get_job_results q "j1" = VList [].
Proof.
  intros q.
  destruct (job_results_round_trip q "j1") as [Hsave Hnone]. split.
  - apply (Hsave {[ "status" := VStr "processing" ]} (VList [VStr "page 1"])).
    reflexivity.
  - apply Hnone. reflexivity.
Defined.

(** X15. [enqueue_job] replaces the job's record: whatever the store held
    for that id before, the record afterwards consists of exactly the
    keyword arguments plus [status = 'queued'], [pdf_path] and [created_at]
    (fields written earlier are dropped); the id is returned and no other
    job changes.  A job never written to reads as the empty record. *)
Theorem enqueue_job_replaces_record (now : string)
    (q : gmap string (gmap string pyval)) (job_id pdf_path : string)
    (kwargs : gmap string pyval) :
  let run := enqueue_job now q job_id pdf_path kwargs in
  run.2 = job_id /\
  (forall k,
      get_job_status run.1 job_id !! k
      = match kwargs !! k with
        | Some v => Some v
        | None =>
            if decide (k = "status") then Some (VStr "queued")
            else if decide (k = "pdf_path") then Some (VStr pdf_path)
            else if decide (k = "created_at") then Some (VStr now)
            else None
        end) /\
  (forall other, other <> job_id -> run.1 !! other = q !! other) /\
  (q !! job_id = None -> get_job_status q job_id = ∅).
Proof.
  split; [reflexivity |]. split; [| split].
  - intros k. unfold enqueue_job, get_job_status. simpl.
    rewrite lookup_insert_eq. simpl. unfold dict_with_kwargs.
    destruct (kwargs !! k) as [v |] eqn:Ek;
      [now apply lookup_union_Some_l |].
    rewrite lookup_union_r by exact Ek.
    destruct (decide (k = "status")) as [-> | Hs]; [apply lookup_insert_eq |].
    rewrite lookup_insert_ne by congruence.
    destruct (decide (k = "pdf_path")) as [-> | Hp]; [apply lookup_insert_eq |].
    rewrite lookup_insert_ne by congruence.
    destruct (decide (k = "created_at")) as [-> | Hc]; [apply lookup_insert_eq |].
    rewrite lookup_insert_ne by congruence. apply lookup_empty.
  - intros other Hne. unfold enqueue_job. simpl.
    apply lookup_insert_ne. congruence.
  - intros Hnone. unfold get_job_status. now rewrite Hnone.
Qed.

Lemma enqueue_job_replaces_record_witness :
  get_job_status ∅ "j1" = ∅ /\
  get_job_status
    (enqueue_job "2026-01-01T00:00:00"
                 {[ "j1" := {[ "filename" := VStr "plan.pdf" ]} ]}
                 "j1" "uploads/j1_plan.pdf" ∅).1 "j1" !! "filename" = None.
Proof.
  split.
  - apply (enqueue_job_replaces_record "2026-01-01T00:00:00" ∅ "j1" "" ∅).
    reflexivity.
  - exact (proj1 (proj2 (enqueue_job_replaces_record
                           "2026-01-01T00:00:00"
                           {[ "j1" := {[ "filename" := VStr "plan.pdf" ]} ]}
                           "j1" "uploads/j1_plan.pdf" ∅)) "filename").
Defined.

(** X16. A cancellation request for a job id the store does not know, or
    whose record is empty, is answered with HTTP 404 and changes nothing;
    in particular it does not create a record. *)
Theorem cancel_job_unknown_job (now : string)
    (q : gmap string (gmap string pyval)) (job_id : string) :
  get_job_status q job_id = ∅ ->
  cancel_job now q job_id
  = (q, mkResponse {[ "error" := VStr "Job not found" ]} 404).
Proof.
  intros Hempty. unfold cancel_job. rewrite Hempty.
  destruct (decide (∅ = ∅)) as [_ | Hne]; [reflexivity | contradiction].
Qed.

Lemma cancel_job_unknown_job_witness :
  cancel_job "2026-01-01T00:00:00" ∅ "nope"
  = (∅, mkResponse {[ "error" := VStr "Job not found" ]} 404).
Proof. apply cancel_job_unknown_job. reflexivity. Defined.

End StoreMore.
